(** * EA Predictor: scoring and aggregation engine ([js/calculations.js])

    A shallow embedding of [calculatePoints], [calculatePlayerStats],
    [getLatestPlayerName] and [sortPlayersByStats], and the properties of
    the scoring rules, the per-player statistics and the leaderboard order;
    then of [getPlayerStats], [aggregatePredictionsByPlayer],
    [getScoreClass] and [normalizeGame], and of the two places of
    [js/ui-helpers.js] that feed them: the game object built by
    [openPlayerHistory] and [filterPredictionsByGameWeek].

    Modelling conventions.
    - A field of a JavaScript record is a [jsval]: missing ([JUndefined]),
      [JNull], or a value of the field's type.  Scores, points and time
      values are integers ([Z]); a number that may be [NaN] is a [jsnum].
    - A plain object used as a dictionary is an [Obj.t]: an association list
      in insertion order, which is the order [Object.keys] and
      [Object.entries] enumerate string keys in.  Keys are assumed not to be
      names inherited from [Object.prototype] and not to be array indices
      (which JavaScript enumerates first).
    - Reading a property of [undefined] throws a [TypeError]; code that can
      do so returns an [option], [None] being the exception.
    - A string is a sequence of 8-bit characters; the default order of
      [Array.prototype.sort] compares them character by character, and
      [toLowerCase] acts on the ASCII letters. *)

From Stdlib Require Import ZArith List String Ascii Bool Lia Permutation Sorted.
Import ListNotations.

Open Scope string_scope.
Open Scope list_scope.
Open Scope Z_scope.

(** ** JavaScript values *)

Inductive jsval (A : Type) : Type :=
| JUndefined : jsval A
| JNull : jsval A
| JVal : A -> jsval A.

Arguments JUndefined {A}.
Arguments JNull {A}.
Arguments JVal {A} _.

(** A JavaScript number restricted to the integers, plus [NaN]. *)
Inductive jsnum : Type :=
| NaN : jsnum
| Num : Z -> jsnum.

Definition is_undefined {A} (v : jsval A) : bool :=
  match v with JUndefined => true | _ => false end.

Definition is_null {A} (v : jsval A) : bool :=
  match v with JNull => true | _ => false end.

(** [ToNumber]: [undefined] is [NaN], [null] is [0]. *)
Definition toNumber (v : jsval Z) : jsnum :=
  match v with
  | JUndefined => NaN
  | JNull => Num 0
  | JVal z => Num z
  end.

(** [a > b] and [a < b]: any comparison with [NaN] is false. *)
Definition js_gt (a b : jsval Z) : bool :=
  match toNumber a, toNumber b with
  | Num x, Num y => y <? x
  | _, _ => false
  end.

Definition js_lt (a b : jsval Z) : bool :=
  match toNumber a, toNumber b with
  | Num x, Num y => x <? y
  | _, _ => false
  end.

(** [a === b] on optional integers: same kind and same value. *)
Definition js_strict_eq (a b : jsval Z) : bool :=
  match a, b with
  | JUndefined, JUndefined => true
  | JNull, JNull => true
  | JVal x, JVal y => x =? y
  | _, _ => false
  end.

(** [a - b]. *)
Definition js_sub (a b : jsval Z) : jsnum :=
  match toNumber a, toNumber b with
  | Num x, Num y => Num (x - y)
  | _, _ => NaN
  end.

Definition Math_abs (n : jsnum) : jsnum :=
  match n with
  | NaN => NaN
  | Num z => Num (Z.abs z)
  end.

(** [m === n] on numbers: [NaN] equals nothing, itself included. *)
Definition num_strict_eq (m n : jsnum) : bool :=
  match m, n with
  | Num x, Num y => x =? y
  | _, _ => false
  end.

(** Truthiness of an optional string: only a non-empty string is truthy. *)
Definition truthy (v : jsval string) : bool :=
  match v with
  | JVal s => negb (s =? "")%string
  | _ => false
  end.

(** [a || b] on optional strings. *)
Definition js_or (a b : jsval string) : jsval string :=
  if truthy a then a else b.

(** [a || d] where [d] is a string literal: the result is a string. *)
Definition js_or_str (a : jsval string) (d : string) : string :=
  match a with
  | JVal s => if (s =? "")%string then d else s
  | _ => d
  end.

(** A truthy optional string, as tested by [if (v)]. *)
Definition truthy_str (v : jsval string) : option string :=
  match v with
  | JVal s => if (s =? "")%string then None else Some s
  | _ => None
  end.

(** [ToPropertyKey] for an optional string used as a dictionary key. *)
Definition propertyKey (v : jsval string) : string :=
  match v with
  | JUndefined => "undefined"
  | JNull => "null"
  | JVal s => s
  end.

(** [String.prototype.toLowerCase] on the ASCII letters.  The only
    character outside ASCII that lowercases into ASCII is the Kelvin sign
    (to [k]), so a string with a character outside [A-Z] and [a-z] never
    lowercases to ['finished'], and the comparison with that literal is
    unaffected by the restriction. *)
Definition lowerAscii (c : ascii) : ascii :=
  let n := nat_of_ascii c in
  if ((65 <=? n)%nat && (n <=? 90)%nat)%bool then ascii_of_nat (n + 32) else c.

Fixpoint toLowerCase (s : string) : string :=
  match s with
  | EmptyString => EmptyString
  | String c r => String (lowerAscii c) (toLowerCase r)
  end.

(** ** Records *)

Module Game.
Record t : Type := mk {
  id : jsval string;
  status : jsval string;
  Status : jsval string;
  homeScore : jsval Z;
  HomeScore : jsval Z;
  awayScore : jsval Z;
  AwayScore : jsval Z;
  fecha : jsval string;
  Fecha : jsval string
}.
End Game.

Module Prediction.
Record t : Type := mk {
  userId : jsval string;
  gameId : jsval string;
  predictedHomeScore : jsval Z;
  predictedAwayScore : jsval Z;
  playerName : jsval string;
  timestamp : jsval Z
}.
End Prediction.

Module PlayerStats.
Record t : Type := mk {
  totalPoints : Z;
  fechasWonCount : Z;
  perfectScoresCount : Z;
  gamesParticipated : Z
}.
End PlayerStats.

(** ** Scoring: [calculatePoints] *)

Inductive outcome : Type := HW | AW | D.

Definition outcome_eqb (a b : outcome) : bool :=
  match a, b with
  | HW, HW | AW, AW | D, D => true
  | _, _ => false
  end.

(** The result is [None] for the JavaScript [null]. *)
Definition calculatePoints (prediction : Prediction.t) (game : Game.t) : option Z :=
  let gameStatus :=
    toLowerCase (js_or_str (js_or (Game.status game) (Game.Status game)) "") in
  let homeScore :=
    if negb (is_undefined (Game.homeScore game))
    then Game.homeScore game else Game.HomeScore game in
  let awayScore :=
    if negb (is_undefined (Game.awayScore game))
    then Game.awayScore game else Game.AwayScore game in
  if negb (gameStatus =? "finished")%string || is_null homeScore || is_null awayScore
  then None
  else
    let predictedHome := Prediction.predictedHomeScore prediction in
    let predictedAway := Prediction.predictedAwayScore prediction in
    let actualHome := homeScore in
    let actualAway := awayScore in
    if is_null predictedHome || is_null predictedAway
    then Some 0
    else
      let points := 0 in
      let predictedOutcome :=
        if js_gt predictedHome predictedAway then HW
        else if js_lt predictedHome predictedAway then AW else D in
      let actualOutcome :=
        if js_gt actualHome actualAway then HW
        else if js_lt actualHome actualAway then AW else D in
      let predictedGoalDifference := js_sub predictedHome predictedAway in
      let actualGoalDifference := js_sub actualHome actualAway in
      let points := if outcome_eqb predictedOutcome actualOutcome
                    then points + 5 else points in
      let points := if js_strict_eq predictedHome actualHome
                    then points + 2 else points in
      let points := if js_strict_eq predictedAway actualAway
                    then points + 2 else points in
      let points := if num_strict_eq (Math_abs predictedGoalDifference)
                                     (Math_abs actualGoalDifference)
                    then points + 1 else points in
      Some points.

(** The normalised fields [calculatePoints] works on. *)
Definition gameStatusOf (game : Game.t) : string :=
  toLowerCase (js_or_str (js_or (Game.status game) (Game.Status game)) "").

Definition homeScoreOf (game : Game.t) : jsval Z :=
  if negb (is_undefined (Game.homeScore game))
  then Game.homeScore game else Game.HomeScore game.

Definition awayScoreOf (game : Game.t) : jsval Z :=
  if negb (is_undefined (Game.awayScore game))
  then Game.awayScore game else Game.AwayScore game.

(** The outcome of a score line, as the specification words it. *)
Definition outcomeOf (home away : Z) : outcome :=
  if away <? home then HW else if home <? away then AW else D.

Definition bonus (b : bool) (n : Z) : Z := if b then n else 0.

(** The four scoring components, summed. *)
Definition pointsRule (h a H A : Z) : Z :=
  bonus (outcome_eqb (outcomeOf h a) (outcomeOf H A)) 5
  + bonus (h =? H) 2
  + bonus (a =? A) 2
  + bonus (Z.abs (h - a) =? Z.abs (H - A)) 1.

(** ** Plain objects used as dictionaries *)

Module Obj.

Definition t (V : Type) : Type := list (string * V).

(** [o[k]]: [None] stands for [undefined]. *)
Fixpoint get {V : Type} (o : t V) (k : string) : option V :=
  match o with
  | [] => None
  | (k', v) :: r => if (k' =? k)%string then Some v else get r k
  end.

(** [o[k] = v]: an existing key keeps its place, a new key goes last. *)
Fixpoint set {V : Type} (o : t V) (k : string) (v : V) : t V :=
  match o with
  | [] => [(k, v)]
  | (k', v') :: r =>
      if (k' =? k)%string then (k', v) :: r else (k', v') :: set r k v
  end.

Definition keys {V : Type} (o : t V) : list string := map fst o.

Definition values {V : Type} (o : t V) : list V := map snd o.

Definition entries {V : Type} (o : t V) : list (string * V) := o.

(** The object with keys [ks], in that order, holding [F k] under [k]. *)
Definition tabulate {V : Type} (F : string -> V) (ks : list string) : t V :=
  map (fun k => (k, F k)) ks.

End Obj.

(** [Array.prototype.forEach] with a callback that may throw. *)
Fixpoint forEachM {A S : Type} (f : S -> A -> option S) (l : list A) (s : S)
  : option S :=
  match l with
  | [] => Some s
  | x :: r =>
      match f s x with
      | Some s' => forEachM f r s'
      | None => None
      end
  end.

(** ** Aggregation: [calculatePlayerStats] *)

Definition zeroStats : PlayerStats.t := PlayerStats.mk 0 0 0 0.

(** [pred.userId || 'unknown'] *)
Definition userKey (pred : Prediction.t) : string :=
  js_or_str (Prediction.userId pred) "unknown".

(** First loop: [gameMap[game.id] = game]. *)
Definition buildGameMap (games : list Game.t) : Obj.t Game.t :=
  fold_left (fun gameMap game => Obj.set gameMap (propertyKey (Game.id game)) game)
            games [].

(** Second loop: an all-zero entry for every user not seen yet. *)
Definition initPlayerStats (predictions : list Prediction.t) : Obj.t PlayerStats.t :=
  fold_left
    (fun playerStats pred =>
       let userId := userKey pred in
       match Obj.get playerStats userId with
       | Some _ => playerStats
       | None => Obj.set playerStats userId zeroStats
       end)
    predictions [].

(** The object literal [normalizedGame]: only the three lowercase fields. *)
Definition normalizedGame (game : Game.t) : Game.t :=
  Game.mk JUndefined
          (JVal (toLowerCase (js_or_str (js_or (Game.Status game) (Game.status game)) "")))
          JUndefined
          (if negb (is_undefined (Game.HomeScore game))
           then Game.HomeScore game else Game.homeScore game)
          JUndefined
          (if negb (is_undefined (Game.AwayScore game))
           then Game.AwayScore game else Game.awayScore game)
          JUndefined
          JUndefined
          JUndefined.

(** The three updates of [playerStats[userId]] for a scored prediction. *)
Definition recordPoints (stats : PlayerStats.t) (points : Z) : PlayerStats.t :=
  let stats := PlayerStats.mk (PlayerStats.totalPoints stats + points)
                              (PlayerStats.fechasWonCount stats)
                              (PlayerStats.perfectScoresCount stats)
                              (PlayerStats.gamesParticipated stats) in
  let stats := PlayerStats.mk (PlayerStats.totalPoints stats)
                              (PlayerStats.fechasWonCount stats)
                              (PlayerStats.perfectScoresCount stats)
                              (PlayerStats.gamesParticipated stats + 1) in
  if points =? 10
  then PlayerStats.mk (PlayerStats.totalPoints stats)
                      (PlayerStats.fechasWonCount stats)
                      (PlayerStats.perfectScoresCount stats + 1)
                      (PlayerStats.gamesParticipated stats)
  else stats.

(** [fechaScores[fecha][userId] += points], creating the week's object and
    the user's zero first where they are missing.  A stored [0] is falsy and
    is overwritten by [0], which changes nothing. *)
Definition addFechaScore (fechaScores : Obj.t (Obj.t Z)) (fecha userId : string)
  (points : Z) : Obj.t (Obj.t Z) :=
  let playersInFecha :=
    match Obj.get fechaScores fecha with Some o => o | None => [] end in
  let current :=
    match Obj.get playersInFecha userId with Some v => v | None => 0 end in
  Obj.set fechaScores fecha (Obj.set playersInFecha userId (current + points)).

(** [game.Fecha || game.fecha], when truthy. *)
Definition weekLabel (game : Game.t) : option string :=
  truthy_str (js_or (Game.Fecha game) (Game.fecha game)).

(** Body of the third loop.  [None]: [playerStats[userId]] is [undefined]. *)
Definition scorePrediction (gameMap : Obj.t Game.t)
  (st : Obj.t PlayerStats.t * Obj.t (Obj.t Z)) (pred : Prediction.t)
  : option (Obj.t PlayerStats.t * Obj.t (Obj.t Z)) :=
  let '(playerStats, fechaScores) := st in
  let userId := userKey pred in
  match Obj.get gameMap (propertyKey (Prediction.gameId pred)) with
  | None => Some st
  | Some game =>
      match calculatePoints pred (normalizedGame game) with
      | None => Some st
      | Some points =>
          match Obj.get playerStats userId with
          | None => None
          | Some stats =>
              let playerStats := Obj.set playerStats userId (recordPoints stats points) in
              match weekLabel game with
              | Some fecha =>
                  Some (playerStats, addFechaScore fechaScores fecha userId points)
              | None => Some (playerStats, fechaScores)
              end
          end
      end
  end.

(** [Math.max(s0, ...rest)] *)
Definition Math_max (s0 : Z) (rest : list Z) : Z := fold_left Z.max rest s0.

Definition creditWin (stats : PlayerStats.t) : PlayerStats.t :=
  PlayerStats.mk (PlayerStats.totalPoints stats)
                 (PlayerStats.fechasWonCount stats + 1)
                 (PlayerStats.perfectScoresCount stats)
                 (PlayerStats.gamesParticipated stats).

(** Inner loop of the fecha pass, for one week's [playersInFecha]. *)
Definition creditFecha (playersInFecha : Obj.t Z) (playerStats : Obj.t PlayerStats.t)
  : option (Obj.t PlayerStats.t) :=
  match Obj.values playersInFecha with
  | [] => Some playerStats
  | s0 :: rest =>
      let maxScore := Math_max s0 rest in
      forEachM
        (fun playerStats userId =>
           match Obj.get playersInFecha userId with
           | Some score =>
               if score =? maxScore
               then match Obj.get playerStats userId with
                    | Some stats => Some (Obj.set playerStats userId (creditWin stats))
                    | None => None
                    end
               else Some playerStats
           | None => Some playerStats
           end)
        (Obj.keys playersInFecha) playerStats
  end.

(** The fecha pass.  [None]: [Object.values(undefined)] throws. *)
Definition creditFechas (fechaScores : Obj.t (Obj.t Z))
  (playerStats : Obj.t PlayerStats.t) : option (Obj.t PlayerStats.t) :=
  forEachM
    (fun playerStats fecha =>
       match Obj.get fechaScores fecha with
       | Some playersInFecha => creditFecha playersInFecha playerStats
       | None => None
       end)
    (Obj.keys fechaScores) playerStats.

Definition calculatePlayerStats (games : list Game.t) (predictions : list Prediction.t)
  : option (Obj.t PlayerStats.t) :=
  let gameMap := buildGameMap games in
  let playerStats := initPlayerStats predictions in
  match forEachM (scorePrediction gameMap) predictions (playerStats, []) with
  | Some (playerStats, fechaScores) => creditFechas fechaScores playerStats
  | None => None
  end.

(** ** Display names: [getLatestPlayerName] *)

(** [pred.timestamp ? new Date(pred.timestamp).getTime() : 0], for a
    timestamp that is missing or holds a time value in milliseconds. *)
Definition predTime (pred : Prediction.t) : Z :=
  match Prediction.timestamp pred with
  | JVal t => t
  | _ => 0
  end.

(** [p.userId === userId] *)
Definition hasUserId (userId : string) (p : Prediction.t) : bool :=
  match Prediction.userId p with
  | JVal u => (u =? userId)%string
  | _ => false
  end.

Definition getLatestPlayerName (predictions : list Prediction.t) (userId : string)
  : string :=
  let userPredictions := filter (hasUserId userId) predictions in
  match userPredictions with
  | [] => userId
  | first :: _ =>
      let latest :=
        fold_left (fun latest pred =>
                     if predTime latest <? predTime pred then pred else latest)
                  userPredictions first in
      js_or_str (Prediction.playerName latest) userId
  end.

(** ** Ranking: [sortPlayersByStats] *)

Section Leaderboard.

(** [String.prototype.localeCompare] depends on the host's collation, and
    is a parameter of the ranking. *)
Variable localeCompare : string -> string -> Z.

Definition comparePlayers (predictions : list Prediction.t)
  (a b : string * PlayerStats.t) : Z :=
  let '(idA, statsA) := a in
  let '(idB, statsB) := b in
  if negb (PlayerStats.totalPoints statsB =? PlayerStats.totalPoints statsA)
  then PlayerStats.totalPoints statsB - PlayerStats.totalPoints statsA
  else if negb (PlayerStats.fechasWonCount statsB =? PlayerStats.fechasWonCount statsA)
  then PlayerStats.fechasWonCount statsB - PlayerStats.fechasWonCount statsA
  else if negb (PlayerStats.perfectScoresCount statsB
                =? PlayerStats.perfectScoresCount statsA)
  then PlayerStats.perfectScoresCount statsB - PlayerStats.perfectScoresCount statsA
  else
    let nameA := getLatestPlayerName predictions idA in
    let nameB := getLatestPlayerName predictions idB in
    localeCompare nameA nameB.

End Leaderboard.

(** [Array.prototype.sort] is a stable sort; with a consistent comparator
    every stable sort returns the same array, here built by insertion. *)
Fixpoint insertBy {A : Type} (cmp : A -> A -> Z) (x : A) (l : list A) : list A :=
  match l with
  | [] => [x]
  | y :: r => if cmp x y <=? 0 then x :: y :: r else y :: insertBy cmp x r
  end.

Definition stableSort {A : Type} (cmp : A -> A -> Z) (l : list A) : list A :=
  fold_right (insertBy cmp) [] l.

Definition sortPlayersByStats (localeCompare : string -> string -> Z)
  (playerStats : Obj.t PlayerStats.t) (predictions : list Prediction.t)
  : list (string * PlayerStats.t) :=
  stableSort (comparePlayers localeCompare predictions) (Obj.entries playerStats).

(** A sample collation for running the ranking: code-unit order. *)
Definition codeUnitCompare (a b : string) : Z :=
  match String.compare a b with
  | Lt => -1
  | Eq => 0
  | Gt => 1
  end.

(** The scoring rules of [calculatePoints], once both guards are passed. *)
Definition scoreLine (predictedHome predictedAway actualHome actualAway : jsval Z) : Z :=
  let points := 0 in
  let predictedOutcome :=
    if js_gt predictedHome predictedAway then HW
    else if js_lt predictedHome predictedAway then AW else D in
  let actualOutcome :=
    if js_gt actualHome actualAway then HW
    else if js_lt actualHome actualAway then AW else D in
  let predictedGoalDifference := js_sub predictedHome predictedAway in
  let actualGoalDifference := js_sub actualHome actualAway in
  let points := if outcome_eqb predictedOutcome actualOutcome
                then points + 5 else points in
  let points := if js_strict_eq predictedHome actualHome
                then points + 2 else points in
  let points := if js_strict_eq predictedAway actualAway
                then points + 2 else points in
  let points := if num_strict_eq (Math_abs predictedGoalDifference)
                                 (Math_abs actualGoalDifference)
                then points + 1 else points in
  points.

(** ** Declarative statistics

    The statistics as the specification words them, over the list of
    scored predictions; [calculatePlayerStats] is compared with them. *)

Definition mem (x : string) (l : list string) : bool :=
  existsb (String.eqb x) l.

Definition snocNew (acc : list string) (x : string) : list string :=
  if mem x acc then acc else acc ++ [x].

(** The distinct elements of a list, in order of first occurrence. *)
Definition dedup (l : list string) : list string := fold_left snocNew l [].

(** A prediction that received a non-null score. *)
Record Scored : Type := mkScored {
  s_user : string;
  s_points : Z;
  s_week : option string
}.

Definition scoreWith (gameMap : Obj.t Game.t) (pred : Prediction.t) : option Scored :=
  match Obj.get gameMap (propertyKey (Prediction.gameId pred)) with
  | None => None
  | Some game =>
      match calculatePoints pred (normalizedGame game) with
      | None => None
      | Some points => Some (mkScored (userKey pred) points (weekLabel game))
      end
  end.

Definition scoredList (gameMap : Obj.t Game.t) (predictions : list Prediction.t)
  : list Scored :=
  flat_map (fun p => match scoreWith gameMap p with Some s => [s] | None => [] end)
           predictions.

Definition byUser (u : string) (s : Scored) : bool := (s_user s =? u)%string.

Definition inWeek (f : string) (s : Scored) : bool :=
  match s_week s with
  | Some f' => (f' =? f)%string
  | None => false
  end.

Definition sumZ (l : list Z) : Z := fold_right Z.add 0 l.

Definition totalOf (u : string) (cs : list Scored) : Z :=
  sumZ (map s_points (filter (byUser u) cs)).

Definition gamesOf (u : string) (cs : list Scored) : Z :=
  Z.of_nat (List.length (filter (byUser u) cs)).

Definition perfectOf (u : string) (cs : list Scored) : Z :=
  Z.of_nat (List.length (filter (fun s => byUser u s && (s_points s =? 10)) cs)).

(** The user's accumulated total in a week, and whether the user scored in it. *)
Definition weekTotal (f u : string) (cs : list Scored) : Z :=
  sumZ (map s_points (filter (fun s => inWeek f s && byUser u s) cs)).

Definition scoredIn (f u : string) (cs : list Scored) : bool :=
  existsb (fun s => inWeek f s && byUser u s) cs.

Definition weekUsers (f : string) (cs : list Scored) : list string :=
  dedup (map s_user (filter (inWeek f) cs)).

(** The largest week total among the users who scored in the week. *)
Definition weekMax (f : string) (cs : list Scored) : Z :=
  match map (fun u => weekTotal f u cs) (weekUsers f cs) with
  | [] => 0
  | s0 :: rest => Math_max s0 rest
  end.

Definition winsWeek (f u : string) (cs : list Scored) : bool :=
  mem u (weekUsers f cs) && (weekTotal f u cs =? weekMax f cs).

Definition weeksOf (cs : list Scored) : list string :=
  dedup (flat_map (fun s => match s_week s with Some f => [f] | None => [] end) cs).

Definition fechasWonOf (u : string) (cs : list Scored) : Z :=
  Z.of_nat (List.length (filter (fun f => winsWeek f u cs) (weeksOf cs))).

Definition statsOf (u : string) (cs : list Scored) : PlayerStats.t :=
  PlayerStats.mk (totalOf u cs) (fechasWonOf u cs) (perfectOf u cs) (gamesOf u cs).

Definition statsTable (gameMap : Obj.t Game.t) (predictions : list Prediction.t)
  : Obj.t PlayerStats.t :=
  Obj.tabulate (fun u => statsOf u (scoredList gameMap predictions))
               (dedup (map userKey predictions)).

(** The two dictionaries after the scoring loop has seen the scored
    predictions [cs], for the users [users]. *)
Definition statsAfterScoring (users : list string) (cs : list Scored)
  : Obj.t PlayerStats.t :=
  Obj.tabulate
    (fun u => PlayerStats.mk (totalOf u cs) 0 (perfectOf u cs) (gamesOf u cs))
    users.

Definition fechaScoresAfter (cs : list Scored) : Obj.t (Obj.t Z) :=
  Obj.tabulate
    (fun f => Obj.tabulate (fun u => weekTotal f u cs) (weekUsers f cs))
    (weeksOf cs).

(** [n] more week wins. *)
Definition addWins (stats : PlayerStats.t) (n : Z) : PlayerStats.t :=
  PlayerStats.mk (PlayerStats.totalPoints stats)
                 (PlayerStats.fechasWonCount stats + n)
                 (PlayerStats.perfectScoresCount stats)
                 (PlayerStats.gamesParticipated stats).

Definition maxOver (W : string -> Z) (us : list string) : Z :=
  match map W us with
  | [] => 0
  | s0 :: rest => Math_max s0 rest
  end.

(** The week labels carried by the games, without repetition. *)
Definition gameWeeks (games : list Game.t) : list string :=
  dedup (flat_map (fun g => match weekLabel g with Some f => [f] | None => [] end)
                  games).

(** The game a prediction refers to, if any. *)
Definition gameOf (games : list Game.t) (pred : Prediction.t) : option Game.t :=
  Obj.get (buildGameMap games) (propertyKey (Prediction.gameId pred)).


(** The same game content under the two naming conventions: status and
    scores only in the capitalised fields, or only in the lowercase ones. *)
Definition capitalizedGame (id st : jsval string) (home away : jsval Z)
  (fecha Fecha : jsval string) : Game.t :=
  Game.mk id JUndefined st JUndefined home JUndefined away fecha Fecha.

Definition lowercaseGame (id st : jsval string) (home away : jsval Z)
  (fecha Fecha : jsval string) : Game.t :=
  Game.mk id st JUndefined home JUndefined away JUndefined fecha Fecha.

(** Two games the aggregator cannot tell apart. *)
Definition sameForScoring (g g' : Game.t) : Prop :=
  Game.id g = Game.id g'
  /\ normalizedGame g = normalizedGame g'
  /\ weekLabel g = weekLabel g'.

(** The leaderboard order as the specification words it: higher total
    first, then more weeks won, then more perfect scores, then the display
    name in ascending collation order. *)
Definition ranksBefore (localeCompare : string -> string -> Z)
  (predictions : list Prediction.t) (a b : string * PlayerStats.t) : Prop :=
  PlayerStats.totalPoints (snd a) > PlayerStats.totalPoints (snd b)
  \/ (PlayerStats.totalPoints (snd a) = PlayerStats.totalPoints (snd b)
      /\ (PlayerStats.fechasWonCount (snd a) > PlayerStats.fechasWonCount (snd b)
          \/ (PlayerStats.fechasWonCount (snd a) = PlayerStats.fechasWonCount (snd b)
              /\ (PlayerStats.perfectScoresCount (snd a)
                  > PlayerStats.perfectScoresCount (snd b)
                  \/ (PlayerStats.perfectScoresCount (snd a)
                      = PlayerStats.perfectScoresCount (snd b)
                      /\ localeCompare (getLatestPlayerName predictions (fst a))
                                       (getLatestPlayerName predictions (fst b))
                         <= 0))))).

(** The key a game is stored under in the index. *)
Definition gameKey (game : Game.t) : string := propertyKey (Game.id game).

(** ** Other functions of [calculations.js] and their callers *)

(** A result of [calculatePoints] as the JavaScript value it is. *)
Definition pointsValue (points : option Z) : jsval Z :=
  match points with
  | Some n => JVal n
  | None => JNull
  end.

(** [getScoreClass]: the last two branches both return ['low']. *)
Definition getScoreClass (points : jsval Z) : string :=
  match points with
  | JNull | JUndefined => "pending"
  | JVal n =>
      if n =? 10 then "perfect"
      else if 7 <=? n then "high"
      else if 4 <=? n then "medium"
      else if 1 <=? n then "low"
      else "low"
  end.

(** The classification [openPlayerHistory] computes inline for a row of the
    history ([pointsClass] in [ui-helpers.js]).  [undefined] fails every
    test and falls through to ['zero']. *)
Definition historyPointsClass (points : jsval Z) : string :=
  match points with
  | JNull => "pending"
  | JUndefined => "zero"
  | JVal n =>
      if n =? 10 then "perfect"
      else if 7 <=? n then "high"
      else if 4 <=? n then "medium"
      else if 0 <? n then "low"
      else "zero"
  end.

(** What [getPlayerStats] returns: the stored entry, or a literal with the
    three counters at 0 and no [gamesParticipated] field. *)
Module StatsView.
Record t : Type := mk {
  totalPoints : Z;
  perfectScoresCount : Z;
  fechasWonCount : Z;
  gamesParticipated : jsval Z
}.
End StatsView.


(** A cell of the matrix of [aggregatePredictionsByPlayer]. *)
Module Cell.
Record t : Type := mk {
  points : option Z;
  prediction : Prediction.t
}.
End Cell.

Module Aggregate.
Record t : Type := mk {
  players : list string;
  gameIds : list (jsval string);
  matrix : Obj.t (Obj.t Cell.t)
}.
End Aggregate.

(** Equality of two ids as elements of a [Set] (SameValueZero). *)
Definition sameId (a b : jsval string) : bool :=
  match a, b with
  | JUndefined, JUndefined => true
  | JNull, JNull => true
  | JVal x, JVal y => (x =? y)%string
  | _, _ => false
  end.

(** [Set.prototype.add] on a set kept in insertion order. *)
Definition setAddId (s : list (jsval string)) (x : jsval string)
  : list (jsval string) :=
  if existsb (sameId x) s then s else s ++ [x].

(** The object literal [aggregatePredictionsByPlayer] hands to
    [calculatePoints]: the three lowercase fields of the game. *)
Definition lowercaseView (game : Game.t) : Game.t :=
  Game.mk JUndefined (Game.status game) JUndefined
          (Game.homeScore game) JUndefined
          (Game.awayScore game) JUndefined
          JUndefined JUndefined.

(** Body of the loop over the predictions: [players.add], the creation of
    the player's row where it is missing, and the assignment of the cell. *)
Definition aggregateStep (gameMap : Obj.t Game.t)
  (st : Obj.t (Obj.t Cell.t) * list string) (pred : Prediction.t)
  : Obj.t (Obj.t Cell.t) * list string :=
  let '(matrix, players) := st in
  let playerId := userKey pred in
  match Obj.get gameMap (propertyKey (Prediction.gameId pred)) with
  | None => st
  | Some game =>
      let players := snocNew players playerId in
      let row := match Obj.get matrix playerId with Some r => r | None => [] end in
      let points := calculatePoints pred (lowercaseView game) in
      (Obj.set matrix playerId
               (Obj.set row (propertyKey (Prediction.gameId pred))
                        (Cell.mk points pred)),
       players)
  end.

(** [Array.from(players).sort()] compares the strings by code units. *)
Definition aggregatePredictionsByPlayer (games : list Game.t)
  (predictions : list Prediction.t) : Aggregate.t :=
  let gameMap := buildGameMap games in
  let gameIds := fold_left setAddId (map Game.id games) [] in
  let '(matrix, players) :=
    fold_left (aggregateStep gameMap) predictions ([], []) in
  Aggregate.mk (stableSort codeUnitCompare players) gameIds matrix.

(** [matrix[playerId][gameId]], [None] where the row or the cell is missing. *)
Definition cellOf (matrix : Obj.t (Obj.t Cell.t)) (playerId gameId : string)
  : option Cell.t :=
  match Obj.get matrix playerId with
  | Some row => Obj.get row gameId
  | None => None
  end.

(** A game document, with the fields of both naming conventions.  The
    stored kick-off value (a Firestore timestamp, a string, or nothing) has
    type [K]. *)
Record GameDoc (K : Type) : Type := mkGameDoc {
  d_id : jsval string;
  d_homeTeam : jsval string;
  d_awayTeam : jsval string;
  d_homeScore : jsval Z;
  d_awayScore : jsval Z;
  d_status : jsval string;
  d_kickOffTime : jsval string;
  d_fecha : jsval string;
  d_league : jsval string;
  d_HomeTeam : jsval string;
  d_AwayTeam : jsval string;
  d_HomeScore : jsval Z;
  d_AwayScore : jsval Z;
  d_Status : jsval string;
  d_KickOffTime : K;
  d_Fecha : jsval string;
  d_League : jsval string
}.

Arguments mkGameDoc {K}.
Arguments d_id {K}.
Arguments d_homeTeam {K}.
Arguments d_awayTeam {K}.
Arguments d_homeScore {K}.
Arguments d_awayScore {K}.
Arguments d_status {K}.
Arguments d_kickOffTime {K}.
Arguments d_fecha {K}.
Arguments d_league {K}.
Arguments d_HomeTeam {K}.
Arguments d_AwayTeam {K}.
Arguments d_HomeScore {K}.
Arguments d_AwayScore {K}.
Arguments d_Status {K}.
Arguments d_KickOffTime {K}.
Arguments d_Fecha {K}.
Arguments d_League {K}.

(** The fields of a game document that the scoring functions read. *)
Definition gameOfDoc {K : Type} (d : GameDoc K) : Game.t :=
  Game.mk (d_id d) (d_status d) (d_Status d)
          (d_homeScore d) (d_HomeScore d)
          (d_awayScore d) (d_AwayScore d)
          (d_fecha d) (d_Fecha d).

(** [v?.toLowerCase?.()] on an optional string. *)
Definition lowerOpt (v : jsval string) : jsval string :=
  match v with
  | JVal s => JVal (toLowerCase s)
  | _ => JUndefined
  end.

Section GameDocuments.

Variable K : Type.

(** [(v?.toDate?.() ? v.toDate() : new Date(v)).toISOString()] for a stored
    kick-off value; [None] is the [RangeError] of an invalid date. *)
Variable kickOffISO : K -> option string.

(** [normalizeGame]; [None] when [toISOString] throws. *)
Definition normalizeGame (firestoreGame : GameDoc K) : option (GameDoc K) :=
  match kickOffISO (d_KickOffTime firestoreGame) with
  | None => None
  | Some iso =>
      Some (mkGameDoc
              (d_id firestoreGame)
              (d_HomeTeam firestoreGame)
              (d_AwayTeam firestoreGame)
              (if negb (is_null (d_HomeScore firestoreGame))
               then d_HomeScore firestoreGame else JNull)
              (if negb (is_null (d_AwayScore firestoreGame))
               then d_AwayScore firestoreGame else JNull)
              (JVal (js_or_str (lowerOpt (d_Status firestoreGame)) "upcoming"))
              (JVal iso)
              (d_Fecha firestoreGame)
              (d_League firestoreGame)
              (d_HomeTeam firestoreGame)
              (d_AwayTeam firestoreGame)
              (d_HomeScore firestoreGame)
              (d_AwayScore firestoreGame)
              (d_Status firestoreGame)
              (d_KickOffTime firestoreGame)
              (d_Fecha firestoreGame)
              (d_League firestoreGame))
  end.

End GameDocuments.



(** The same match seen from the other side: home and away exchanged in
    the prediction and in the game. *)
Definition swapPrediction (p : Prediction.t) : Prediction.t :=
  Prediction.mk (Prediction.userId p) (Prediction.gameId p)
                (Prediction.predictedAwayScore p) (Prediction.predictedHomeScore p)
                (Prediction.playerName p) (Prediction.timestamp p).

Definition swapGame (g : Game.t) : Game.t :=
  Game.mk (Game.id g) (Game.status g) (Game.Status g)
          (Game.awayScore g) (Game.AwayScore g)
          (Game.homeScore g) (Game.HomeScore g)
          (Game.fecha g) (Game.Fecha g).

(** [if (game)] for the game a prediction refers to. *)
Definition hasGame (gameMap : Obj.t Game.t) (pred : Prediction.t) : bool :=
  match Obj.get gameMap (propertyKey (Prediction.gameId pred)) with
  | Some _ => true
  | None => false
  end.


(** * Properties *)

(** Case analysis on every conditional of the goal. *)
Ltac destruct_ifs :=
  repeat match goal with
         | |- context [if ?b then _ else _] => destruct b
         end.

(** ** The points calculator *)

Lemma calculatePoints_unfold (p : Prediction.t) (g : Game.t) :
  calculatePoints p g =
  if negb (gameStatusOf g =? "finished")%string
     || is_null (homeScoreOf g) || is_null (awayScoreOf g)
  then None
  else if is_null (Prediction.predictedHomeScore p)
          || is_null (Prediction.predictedAwayScore p)
  then Some 0
  else Some (scoreLine (Prediction.predictedHomeScore p)
                       (Prediction.predictedAwayScore p)
                       (homeScoreOf g) (awayScoreOf g)).
Proof. reflexivity. Qed.

Lemma scoreLine_present (h a H A : Z) :
  scoreLine (JVal h) (JVal a) (JVal H) (JVal A) = pointsRule h a H A.
Proof.
  unfold scoreLine, pointsRule, outcomeOf, bonus, js_gt, js_lt, js_strict_eq,
    js_sub, Math_abs, num_strict_eq; simpl.
  destruct (a <? h), (h <? a), (A <? H), (H <? A); simpl;
    destruct (h =? H), (a =? A), (Z.abs (h - a) =? Z.abs (H - A)); reflexivity.
Qed.

Lemma scoreLine_range (ph pa ah aa : jsval Z) : 0 <= scoreLine ph pa ah aa <= 10.
Proof.
  unfold scoreLine.
  destruct_ifs; lia.
Qed.

Lemma pointsRule_range (h a H A : Z) : 0 <= pointsRule h a H A <= 10.
Proof. rewrite <- scoreLine_present. apply scoreLine_range. Qed.

Lemma pointsRule_perfect (h a H A : Z) :
  pointsRule h a H A = 10 <-> h = H /\ a = A.
Proof.
  unfold pointsRule, outcomeOf, bonus. split.
  - intros E.
    destruct (h =? H) eqn:E1; [apply Z.eqb_eq in E1 | ];
      (destruct (a =? A) eqn:E2; [apply Z.eqb_eq in E2 | ]); [tauto | exfalso ..];
      repeat match type of E with
             | context [if ?b then _ else _] => destruct b
             end; lia.
  - intros [-> ->]. rewrite !Z.eqb_refl.
    destruct (A <? H), (H <? A); reflexivity.
Qed.

(** The sentinel is returned exactly when the status is not ['finished'] or
    a normalised actual score is [null]. *)
Lemma calculatePoints_null_iff (p : Prediction.t) (g : Game.t) :
  calculatePoints p g = None <->
  gameStatusOf g <> "finished" \/ homeScoreOf g = JNull \/ awayScoreOf g = JNull.
Proof.
  rewrite calculatePoints_unfold.
  destruct (String.eqb_spec (gameStatusOf g) "finished") as [E | E]; simpl.
  - destruct (homeScoreOf g), (awayScoreOf g); simpl;
      destruct_ifs; intuition (discriminate || congruence).
  - tauto.
Qed.

Lemma calculatePoints_range (p : Prediction.t) (g : Game.t) (n : Z) :
  calculatePoints p g = Some n -> 0 <= n <= 10.
Proof.
  rewrite calculatePoints_unfold.
  destruct_ifs; intros E; inversion E; subst; try lia.
  apply scoreLine_range.
Qed.

(** C1. With both predicted scores entered and a finished game carrying
    both actual scores, [calculatePoints] returns the sum of the four
    independent components: 5 for the outcome, 2 for the home score, 2 for
    the away score and 1 for the absolute goal difference. *)
Theorem calculatePoints_four_components (p : Prediction.t) (g : Game.t) (h a H A : Z) :
  gameStatusOf g = "finished" ->
  homeScoreOf g = JVal H ->
  awayScoreOf g = JVal A ->
  Prediction.predictedHomeScore p = JVal h ->
  Prediction.predictedAwayScore p = JVal a ->
  calculatePoints p g =
  Some ((if outcome_eqb (outcomeOf h a) (outcomeOf H A) then 5 else 0)
        + (if h =? H then 2 else 0)
        + (if a =? A then 2 else 0)
        + (if Z.abs (h - a) =? Z.abs (H - A) then 1 else 0)).
Proof.
  intros Hs HH HA Hh Ha.
  rewrite calculatePoints_unfold, Hs, HH, HA, Hh, Ha. simpl.
  rewrite scoreLine_present. reflexivity.
Qed.

(** ** Lists of distinct keys *)

Lemma mem_In (x : string) (l : list string) : mem x l = true <-> In x l.
Proof.
  unfold mem. rewrite existsb_exists. split.
  - intros [y [Hy E]]. apply String.eqb_eq in E. subst. assumption.
  - intros H. exists x. split; [assumption | apply String.eqb_refl].
Qed.

Lemma mem_false (x : string) (l : list string) : mem x l = false <-> ~ In x l.
Proof.
  rewrite <- mem_In. destruct (mem x l); split; congruence.
Qed.

Lemma mem_cons (x y : string) (l : list string) :
  mem x (y :: l) = ((x =? y)%string || mem x l)%bool.
Proof. reflexivity. Qed.

Lemma dedup_snoc (l : list string) (x : string) :
  dedup (l ++ [x]) = snocNew (dedup l) x.
Proof. unfold dedup. rewrite fold_left_app. reflexivity. Qed.

Lemma In_snocNew (acc : list string) (x y : string) :
  In y (snocNew acc x) <-> In y acc \/ y = x.
Proof.
  unfold snocNew. destruct (mem x acc) eqn:E.
  - apply mem_In in E. split; [tauto | intros [H | ->]; assumption].
  - rewrite in_app_iff. simpl. intuition congruence.
Qed.

Lemma NoDup_snocNew (acc : list string) (x : string) :
  NoDup acc -> NoDup (snocNew acc x).
Proof.
  intros H. unfold snocNew. destruct (mem x acc) eqn:E; [assumption | ].
  apply mem_false in E.
  apply NoDup_rev in H. rewrite <- (rev_involutive (acc ++ [x])).
  apply NoDup_rev. rewrite rev_app_distr. simpl. constructor.
  - rewrite <- in_rev. assumption.
  - assumption.
Qed.

Lemma In_dedup (l : list string) (x : string) : In x (dedup l) <-> In x l.
Proof.
  induction l as [ | y l IH] using rev_ind.
  - reflexivity.
  - rewrite dedup_snoc, In_snocNew, in_app_iff, IH. simpl. intuition congruence.
Qed.

Lemma NoDup_dedup (l : list string) : NoDup (dedup l).
Proof.
  induction l as [ | y l IH] using rev_ind.
  - constructor.
  - rewrite dedup_snoc. apply NoDup_snocNew. assumption.
Qed.

(** ** Dictionaries given by their table *)

Lemma keys_tabulate {V : Type} (F : string -> V) (ks : list string) :
  Obj.keys (Obj.tabulate F ks) = ks.
Proof.
  unfold Obj.keys, Obj.tabulate. rewrite map_map. simpl. apply map_id.
Qed.

Lemma values_tabulate {V : Type} (F : string -> V) (ks : list string) :
  Obj.values (Obj.tabulate F ks) = map F ks.
Proof.
  unfold Obj.values, Obj.tabulate. rewrite map_map. reflexivity.
Qed.

Lemma get_tabulate {V : Type} (F : string -> V) (ks : list string) (k : string) :
  Obj.get (Obj.tabulate F ks) k = if mem k ks then Some (F k) else None.
Proof.
  unfold mem. induction ks as [ | k' ks IH]; simpl.
  - reflexivity.
  - rewrite (String.eqb_sym k k').
    destruct (String.eqb_spec k' k) as [-> | N]; simpl; [reflexivity | exact IH].
Qed.

Lemma tabulate_ext {V : Type} (F G : string -> V) (ks : list string) :
  (forall k, In k ks -> F k = G k) -> Obj.tabulate F ks = Obj.tabulate G ks.
Proof.
  intros H. unfold Obj.tabulate. apply map_ext_in.
  intros k Hk. rewrite (H k Hk). reflexivity.
Qed.

Lemma tabulate_app {V : Type} (F : string -> V) (ks ks' : list string) :
  Obj.tabulate F (ks ++ ks') = Obj.tabulate F ks ++ Obj.tabulate F ks'.
Proof. unfold Obj.tabulate. apply map_app. Qed.

Lemma set_tabulate_new {V : Type} (F : string -> V) (ks : list string)
  (k : string) (v : V) :
  ~ In k ks ->
  Obj.set (Obj.tabulate F ks) k v = Obj.tabulate F ks ++ [(k, v)].
Proof.
  induction ks as [ | k' ks IH]; simpl; intros N.
  - reflexivity.
  - destruct (String.eqb_spec k' k) as [-> | N'].
    + exfalso. apply N. left. reflexivity.
    + f_equal. apply IH. intros H. apply N. right. assumption.
Qed.

Lemma set_tabulate_old {V : Type} (F : string -> V) (ks : list string)
  (k : string) (v : V) :
  NoDup ks -> In k ks ->
  Obj.set (Obj.tabulate F ks) k v
  = Obj.tabulate (fun k' => if (k' =? k)%string then v else F k') ks.
Proof.
  induction ks as [ | k' ks IH]; simpl; intros ND Hin.
  - contradiction.
  - inversion ND as [ | ? ? Hn ND']; subst.
    destruct (String.eqb_spec k' k) as [-> | N'].
    + f_equal. apply tabulate_ext. intros j Hj.
      destruct (String.eqb_spec j k) as [-> | ]; [contradiction | reflexivity].
    + f_equal. apply IH; [assumption | ]. destruct Hin; [contradiction | assumption].
Qed.

(** Assignment to a tabulated dictionary, whether the key is new or not. *)
Lemma set_tabulate {V : Type} (F : string -> V) (ks : list string)
  (k : string) (v : V) :
  NoDup ks ->
  Obj.set (Obj.tabulate F ks) k v
  = Obj.tabulate (fun k' => if (k' =? k)%string then v else F k') (snocNew ks k).
Proof.
  intros ND. unfold snocNew. destruct (mem k ks) eqn:E.
  - apply set_tabulate_old; [assumption | apply mem_In; assumption].
  - apply mem_false in E. rewrite set_tabulate_new by assumption.
    rewrite tabulate_app. simpl. rewrite String.eqb_refl. f_equal.
    apply tabulate_ext. intros j Hj.
    destruct (String.eqb_spec j k) as [-> | ]; [contradiction | reflexivity].
Qed.

(** ** The declarative statistics, one scored prediction at a time *)

Lemma sumZ_app (l l' : list Z) : sumZ (l ++ l') = sumZ l + sumZ l'.
Proof. induction l as [ | x l IH]; simpl; [reflexivity | rewrite IH; lia]. Qed.

Lemma totalOf_snoc (u : string) (cs : list Scored) (c : Scored) :
  totalOf u (cs ++ [c]) = totalOf u cs + (if byUser u c then s_points c else 0).
Proof.
  unfold totalOf. rewrite filter_app, map_app, sumZ_app. simpl.
  destruct (byUser u c); simpl; lia.
Qed.

Lemma gamesOf_snoc (u : string) (cs : list Scored) (c : Scored) :
  gamesOf u (cs ++ [c]) = gamesOf u cs + (if byUser u c then 1 else 0).
Proof.
  unfold gamesOf. rewrite filter_app, length_app. simpl.
  destruct (byUser u c); simpl; lia.
Qed.

Lemma perfectOf_snoc (u : string) (cs : list Scored) (c : Scored) :
  perfectOf u (cs ++ [c])
  = perfectOf u cs + (if byUser u c && (s_points c =? 10) then 1 else 0).
Proof.
  unfold perfectOf. rewrite filter_app, length_app. simpl.
  destruct (byUser u c && (s_points c =? 10))%bool; simpl; lia.
Qed.

Lemma weekTotal_snoc (f u : string) (cs : list Scored) (c : Scored) :
  weekTotal f u (cs ++ [c])
  = weekTotal f u cs + (if inWeek f c && byUser u c then s_points c else 0).
Proof.
  unfold weekTotal. rewrite filter_app, map_app, sumZ_app. simpl.
  destruct (inWeek f c && byUser u c)%bool; simpl; lia.
Qed.

Lemma weekUsers_snoc (f : string) (cs : list Scored) (c : Scored) :
  weekUsers f (cs ++ [c])
  = if inWeek f c then snocNew (weekUsers f cs) (s_user c) else weekUsers f cs.
Proof.
  unfold weekUsers. rewrite filter_app. simpl.
  destruct (inWeek f c); simpl.
  - rewrite map_app. simpl. apply dedup_snoc.
  - rewrite app_nil_r. reflexivity.
Qed.

Lemma weeksOf_snoc (cs : list Scored) (c : Scored) :
  weeksOf (cs ++ [c])
  = match s_week c with
    | Some f => snocNew (weeksOf cs) f
    | None => weeksOf cs
    end.
Proof.
  unfold weeksOf. rewrite flat_map_app. simpl.
  destruct (s_week c); simpl.
  - apply dedup_snoc.
  - rewrite app_nil_r. reflexivity.
Qed.

Lemma In_weekUsers (f u : string) (cs : list Scored) :
  In u (weekUsers f cs) <-> exists s, In s cs /\ inWeek f s = true /\ s_user s = u.
Proof.
  unfold weekUsers. rewrite In_dedup, in_map_iff. split.
  - intros [s [E H]]. apply filter_In in H. exists s. tauto.
  - intros [s [H [W E]]]. exists s. split; [assumption | ].
    apply filter_In. tauto.
Qed.

Lemma In_weeksOf (f : string) (cs : list Scored) :
  In f (weeksOf cs) <-> exists s, In s cs /\ s_week s = Some f.
Proof.
  unfold weeksOf. rewrite In_dedup, in_flat_map. split.
  - intros [s [H W]]. exists s. split; [assumption | ].
    destruct (s_week s); simpl in W; [ | contradiction].
    destruct W as [-> | []]. reflexivity.
  - intros [s [H W]]. exists s. split; [assumption | ].
    rewrite W. left. reflexivity.
Qed.

Lemma scoredIn_weekUsers (f u : string) (cs : list Scored) :
  scoredIn f u cs = mem u (weekUsers f cs).
Proof.
  apply eq_true_iff_eq. rewrite mem_In, In_weekUsers.
  unfold scoredIn. rewrite existsb_exists.
  split; intros [s [H W]]; exists s.
  - apply andb_true_iff in W. destruct W as [W E].
    apply String.eqb_eq in E. tauto.
  - destruct W as [W E]. split; [assumption | ].
    unfold byUser. rewrite W, E, String.eqb_refl. reflexivity.
Qed.

Lemma filter_none {A : Type} (f : A -> bool) (l : list A) :
  (forall x, In x l -> f x = false) -> filter f l = [].
Proof.
  induction l as [ | x l IH]; simpl; intros H.
  - reflexivity.
  - rewrite (H x (or_introl eq_refl)). apply IH.
    intros y Hy. apply H. right. assumption.
Qed.

Lemma weekTotal_absent (f u : string) (cs : list Scored) :
  ~ In u (weekUsers f cs) -> weekTotal f u cs = 0.
Proof.
  intros N. unfold weekTotal. rewrite filter_none; [reflexivity | ].
  intros s Hs. destruct (inWeek f s && byUser u s)%bool eqn:W; [ | reflexivity].
  exfalso. apply N, In_weekUsers.
  apply andb_true_iff in W. destruct W as [W E].
  apply String.eqb_eq in E. exists s. tauto.
Qed.

(** ** The loops of [calculatePlayerStats] *)

(** The initialisation loop leaves an all-zero entry per distinct user. *)
Lemma initPlayerStats_table (predictions : list Prediction.t) :
  initPlayerStats predictions
  = Obj.tabulate (fun _ => zeroStats) (dedup (map userKey predictions)).
Proof.
  unfold initPlayerStats, dedup.
  change (@nil (string * PlayerStats.t))
    with (Obj.tabulate (fun _ : string => zeroStats) []).
  generalize (@nil string) as acc.
  induction predictions as [ | p l IH]; intros acc; simpl.
  - reflexivity.
  - rewrite get_tabulate. unfold snocNew at 2.
    destruct (mem (userKey p) acc) eqn:E.
    + apply IH.
    + apply mem_false in E. rewrite set_tabulate_new by assumption.
      change [(userKey p, zeroStats)]
        with (Obj.tabulate (fun _ : string => zeroStats) [userKey p]).
      rewrite <- tabulate_app. apply IH.
Qed.

Lemma statsAfterScoring_nil (users : list string) :
  statsAfterScoring users [] = Obj.tabulate (fun _ => zeroStats) users.
Proof. reflexivity. Qed.

Lemma statsAfterScoring_snoc (users : list string) (cs : list Scored) (c : Scored) :
  NoDup users -> In (s_user c) users ->
  Obj.set (statsAfterScoring users cs) (s_user c)
          (recordPoints
             (PlayerStats.mk (totalOf (s_user c) cs) 0 (perfectOf (s_user c) cs)
                             (gamesOf (s_user c) cs))
             (s_points c))
  = statsAfterScoring users (cs ++ [c]).
Proof.
  intros ND Hin. unfold statsAfterScoring.
  rewrite set_tabulate_old by assumption.
  apply tabulate_ext. intros k _.
  rewrite totalOf_snoc, perfectOf_snoc, gamesOf_snoc. unfold byUser.
  rewrite (String.eqb_sym (s_user c) k).
  destruct (String.eqb_spec k (s_user c)) as [-> | N]; simpl.
  - unfold recordPoints. simpl. destruct (s_points c =? 10); f_equal; lia.
  - f_equal; lia.
Qed.

Lemma NoDup_weekUsers (f : string) (cs : list Scored) : NoDup (weekUsers f cs).
Proof. apply NoDup_dedup. Qed.

Lemma NoDup_weeksOf (cs : list Scored) : NoDup (weeksOf cs).
Proof. apply NoDup_dedup. Qed.

Lemma weekUsers_unknown_week (f : string) (cs : list Scored) :
  ~ In f (weeksOf cs) -> weekUsers f cs = [].
Proof.
  intros N. destruct (weekUsers f cs) as [ | u us] eqn:E; [reflexivity | ].
  exfalso. apply N.
  assert (H : In u (weekUsers f cs)) by (rewrite E; left; reflexivity).
  apply In_weekUsers in H. destruct H as [s [Hs [W _]]].
  apply In_weeksOf. exists s. split; [assumption | ].
  unfold inWeek in W. destruct (s_week s) as [f' | ]; [ | discriminate].
  apply String.eqb_eq in W. congruence.
Qed.

(** [fechaScores[fecha]], or the fresh object created for a new week. *)
Lemma playersInFecha_table (f : string) (cs : list Scored) :
  match Obj.get (fechaScoresAfter cs) f with Some o => o | None => [] end
  = Obj.tabulate (fun u => weekTotal f u cs) (weekUsers f cs).
Proof.
  unfold fechaScoresAfter. rewrite get_tabulate.
  destruct (mem f (weeksOf cs)) eqn:E; [reflexivity | ].
  apply mem_false in E. rewrite (weekUsers_unknown_week _ _ E). reflexivity.
Qed.

Lemma inWeek_of_label (f f' : string) (c : Scored) :
  s_week c = Some f -> inWeek f' c = (f =? f')%string.
Proof. intros E. unfold inWeek. rewrite E. reflexivity. Qed.

Lemma fechaScoresAfter_snoc (f : string) (cs : list Scored) (c : Scored) :
  s_week c = Some f ->
  addFechaScore (fechaScoresAfter cs) f (s_user c) (s_points c)
  = fechaScoresAfter (cs ++ [c]).
Proof.
  intros W. unfold addFechaScore. rewrite playersInFecha_table.
  rewrite get_tabulate.
  assert (Hcur : (if mem (s_user c) (weekUsers f cs)
                  then Some (weekTotal f (s_user c) cs) else None)
                 = Some (weekTotal f (s_user c) cs)
                 \/ (if mem (s_user c) (weekUsers f cs)
                     then Some (weekTotal f (s_user c) cs) else None) = None
                    /\ weekTotal f (s_user c) cs = 0).
  { destruct (mem (s_user c) (weekUsers f cs)) eqn:E; [left; reflexivity | right].
    split; [reflexivity | ]. apply weekTotal_absent, mem_false. assumption. }
  assert (E : match (if mem (s_user c) (weekUsers f cs)
                     then Some (weekTotal f (s_user c) cs) else None)
              with Some v => v | None => 0 end = weekTotal f (s_user c) cs).
  { destruct Hcur as [-> | [-> ->]]; reflexivity. }
  rewrite E. clear E Hcur.
  rewrite (set_tabulate _ _ _ _ (NoDup_weekUsers f cs)).
  unfold fechaScoresAfter at 1.
  rewrite (set_tabulate _ _ _ _ (NoDup_weeksOf cs)).
  unfold fechaScoresAfter. rewrite weeksOf_snoc, W.
  apply tabulate_ext. intros f' _.
  rewrite weekUsers_snoc, (inWeek_of_label f f' c W), (String.eqb_sym f f').
  destruct (String.eqb_spec f' f) as [-> | N].
  - apply tabulate_ext. intros u _.
    rewrite weekTotal_snoc, (inWeek_of_label f f c W), String.eqb_refl.
    unfold byUser. rewrite (String.eqb_sym (s_user c) u). simpl.
    destruct (String.eqb_spec u (s_user c)) as [-> | ]; [reflexivity | lia].
  - apply tabulate_ext. intros u _.
    rewrite weekTotal_snoc, (inWeek_of_label f f' c W).
    apply String.eqb_neq in N. rewrite String.eqb_sym in N. rewrite N. simpl. lia.
Qed.

Lemma fechaScoresAfter_snoc_noweek (cs : list Scored) (c : Scored) :
  s_week c = None -> fechaScoresAfter (cs ++ [c]) = fechaScoresAfter cs.
Proof.
  intros W. unfold fechaScoresAfter. rewrite weeksOf_snoc, W.
  assert (I : forall f, inWeek f c = false) by (intros f; unfold inWeek; rewrite W; reflexivity).
  apply tabulate_ext. intros f _. rewrite weekUsers_snoc, I.
  apply tabulate_ext. intros u _. rewrite weekTotal_snoc, I. simpl. lia.
Qed.

(** One iteration of the scoring loop. *)
Lemma scorePrediction_step (gameMap : Obj.t Game.t) (users : list string)
  (cs : list Scored) (p : Prediction.t) :
  NoDup users -> In (userKey p) users ->
  scorePrediction gameMap (statsAfterScoring users cs, fechaScoresAfter cs) p
  = Some (statsAfterScoring users (cs ++ scoredList gameMap [p]),
          fechaScoresAfter (cs ++ scoredList gameMap [p])).
Proof.
  intros ND Hin. unfold scorePrediction, scoredList, scoreWith. simpl.
  destruct (Obj.get gameMap (propertyKey (Prediction.gameId p))) as [game | ];
    [ | simpl; rewrite app_nil_r; reflexivity].
  destruct (calculatePoints p (normalizedGame game)) as [points | ];
    [ | simpl; rewrite app_nil_r; reflexivity].
  simpl. unfold statsAfterScoring at 1. rewrite get_tabulate.
  apply mem_In in Hin. rewrite Hin. apply mem_In in Hin.
  set (c := mkScored (userKey p) points (weekLabel game)).
  pose proof (statsAfterScoring_snoc users cs c ND Hin) as S.
  cbn [c s_user s_points] in S. rewrite S. clear S.
  destruct (weekLabel game) as [fecha | ] eqn:W.
  - rewrite <- (fechaScoresAfter_snoc fecha cs c) by reflexivity. reflexivity.
  - rewrite (fechaScoresAfter_snoc_noweek cs c) by reflexivity. reflexivity.
Qed.

Lemma scoredList_cons (gameMap : Obj.t Game.t) (p : Prediction.t)
  (l : list Prediction.t) :
  scoredList gameMap (p :: l) = scoredList gameMap [p] ++ scoredList gameMap l.
Proof. unfold scoredList. simpl. rewrite app_nil_r. reflexivity. Qed.


(** The whole scoring loop. *)
Lemma scoring_loop (gameMap : Obj.t Game.t) (users : list string)
  (l : list Prediction.t) (cs : list Scored) :
  NoDup users -> (forall p, In p l -> In (userKey p) users) ->
  forEachM (scorePrediction gameMap) l
           (statsAfterScoring users cs, fechaScoresAfter cs)
  = Some (statsAfterScoring users (cs ++ scoredList gameMap l),
          fechaScoresAfter (cs ++ scoredList gameMap l)).
Proof.
  intros ND. revert cs. induction l as [ | p l IH]; intros cs Hin; cbn [forEachM].
  - rewrite app_nil_r. reflexivity.
  - rewrite scorePrediction_step; [ | assumption | apply Hin; left; reflexivity].
    rewrite IH by (intros q Hq; apply Hin; right; assumption).
    rewrite (scoredList_cons gameMap p l), app_assoc. reflexivity.
Qed.

Lemma creditFecha_loop (W : string -> Z) (us : list string) (m : Z)
  (users : list string) :
  NoDup users ->
  forall (l : list string) (G : string -> PlayerStats.t),
    NoDup l -> incl l us -> incl l users ->
    forEachM
      (fun playerStats userId =>
         match Obj.get (Obj.tabulate W us) userId with
         | Some score =>
             if score =? m
             then match Obj.get playerStats userId with
                  | Some stats => Some (Obj.set playerStats userId (creditWin stats))
                  | None => None
                  end
             else Some playerStats
         | None => Some playerStats
         end)
      l (Obj.tabulate G users)
    = Some (Obj.tabulate
              (fun u => if (mem u l && (W u =? m))%bool then creditWin (G u) else G u)
              users).
Proof.
  intros ND l. induction l as [ | u l IH]; intros G NDl Hus Husers; cbn [forEachM].
  - reflexivity.
  - inversion NDl as [ | ? ? Hn NDl']; subst.
    assert (Hu : mem u us = true) by (apply mem_In, Hus; left; reflexivity).
    assert (Hu' : In u users) by (apply Husers; left; reflexivity).
    rewrite get_tabulate, Hu.
    assert (Hrest : incl l us /\ incl l users).
    { split; intros x Hx; [apply Hus | apply Husers]; right; assumption. }
    destruct Hrest as [Hus' Husers'].
    destruct (W u =? m) eqn:E.
    + rewrite get_tabulate. apply mem_In in Hu'. rewrite Hu'. apply mem_In in Hu'.
      rewrite set_tabulate_old by assumption.
      rewrite IH by assumption. f_equal. apply tabulate_ext. intros k _.
      rewrite mem_cons.
      destruct (String.eqb_spec k u) as [-> | N]; simpl.
      * apply mem_false in Hn. rewrite Hn, E. reflexivity.
      * reflexivity.
    + rewrite IH by assumption. f_equal. apply tabulate_ext. intros k _.
      rewrite mem_cons.
      destruct (String.eqb_spec k u) as [-> | N]; simpl.
      * apply mem_false in Hn. rewrite Hn, E. reflexivity.
      * reflexivity.
Qed.

(** The inner loop of the fecha pass credits exactly the users of the week
    whose total is the week's maximum. *)
Lemma creditFecha_table (W : string -> Z) (us users : list string)
  (G : string -> PlayerStats.t) :
  NoDup users -> NoDup us -> incl us users ->
  creditFecha (Obj.tabulate W us) (Obj.tabulate G users)
  = Some (Obj.tabulate
            (fun u => if (mem u us && (W u =? maxOver W us))%bool
                      then creditWin (G u) else G u)
            users).
Proof.
  intros ND NDus Hincl. unfold creditFecha, maxOver.
  rewrite values_tabulate, keys_tabulate.
  destruct (map W us) as [ | s0 rest] eqn:E.
  - apply map_eq_nil in E. subst us. reflexivity.
  - apply creditFecha_loop; [assumption | assumption | apply incl_refl | assumption].
Qed.

Lemma addWins_zero (s : PlayerStats.t) : addWins s 0 = s.
Proof. destruct s. unfold addWins. simpl. f_equal. lia. Qed.

Lemma addWins_creditWin (s : PlayerStats.t) (n : Z) :
  addWins (creditWin s) n = addWins s (1 + n).
Proof.
  unfold addWins, creditWin.
  cbn [PlayerStats.totalPoints PlayerStats.fechasWonCount
       PlayerStats.perfectScoresCount PlayerStats.gamesParticipated].
  rewrite Z.add_assoc. reflexivity.
Qed.

Lemma weekUsers_incl (f : string) (cs : list Scored) (users : list string) :
  (forall s, In s cs -> In (s_user s) users) -> incl (weekUsers f cs) users.
Proof.
  intros H u Hu. apply In_weekUsers in Hu. destruct Hu as [s [Hs [_ <-]]].
  apply H. assumption.
Qed.

Lemma creditFechas_loop (cs : list Scored) (users : list string) :
  NoDup users -> (forall s, In s cs -> In (s_user s) users) ->
  forall (ws : list string) (G : string -> PlayerStats.t),
    incl ws (weeksOf cs) ->
    forEachM
      (fun playerStats fecha =>
         match Obj.get (fechaScoresAfter cs) fecha with
         | Some playersInFecha => creditFecha playersInFecha playerStats
         | None => None
         end)
      ws (Obj.tabulate G users)
    = Some (Obj.tabulate
              (fun u => addWins (G u)
                          (Z.of_nat (List.length (filter (fun f => winsWeek f u cs) ws))))
              users).
Proof.
  intros ND Hcs ws. induction ws as [ | f ws IH]; intros G Hws; cbn [forEachM].
  - f_equal. apply tabulate_ext. intros u _. simpl. symmetry. apply addWins_zero.
  - unfold fechaScoresAfter at 1. rewrite get_tabulate.
    assert (Hf : mem f (weeksOf cs) = true) by (apply mem_In, Hws; left; reflexivity).
    rewrite Hf.
    rewrite creditFecha_table;
      [ | assumption | apply NoDup_weekUsers | apply weekUsers_incl; assumption].
    rewrite IH by (intros x Hx; apply Hws; right; assumption).
    f_equal. apply tabulate_ext. intros u _. cbn [filter].
    change (mem u (weekUsers f cs)
            && (weekTotal f u cs
                =? maxOver (fun u0 => weekTotal f u0 cs) (weekUsers f cs)))%bool
      with (winsWeek f u cs).
    destruct (winsWeek f u cs).
    + rewrite addWins_creditWin. cbn [List.length].
      rewrite Nat2Z.inj_succ. f_equal. lia.
    + reflexivity.
Qed.

Lemma In_scoredList (gameMap : Obj.t Game.t) (l : list Prediction.t) (s : Scored) :
  In s (scoredList gameMap l) <-> exists p, In p l /\ scoreWith gameMap p = Some s.
Proof.
  unfold scoredList. rewrite in_flat_map. split; intros [p [Hp H]]; exists p.
  - destruct (scoreWith gameMap p); simpl in H; [ | contradiction].
    destruct H as [-> | []]. tauto.
  - rewrite H. split; [assumption | left; reflexivity].
Qed.

Lemma scoreWith_user (gameMap : Obj.t Game.t) (p : Prediction.t) (s : Scored) :
  scoreWith gameMap p = Some s -> s_user s = userKey p.
Proof.
  unfold scoreWith.
  destruct (Obj.get gameMap (propertyKey (Prediction.gameId p))); [ | discriminate].
  destruct (calculatePoints p (normalizedGame t)); [ | discriminate].
  intros E. inversion E. reflexivity.
Qed.

Lemma scoredList_users (gameMap : Obj.t Game.t) (l : list Prediction.t) :
  forall s, In s (scoredList gameMap l) -> In (s_user s) (dedup (map userKey l)).
Proof.
  intros s H. apply In_scoredList in H. destruct H as [p [Hp E]].
  rewrite (scoreWith_user _ _ _ E). apply In_dedup, in_map. assumption.
Qed.

(** [calculatePlayerStats] never throws, and returns the table of the
    declarative statistics, one entry per distinct user key, in order of
    first appearance. *)
Theorem calculatePlayerStats_table (games : list Game.t)
  (predictions : list Prediction.t) :
  calculatePlayerStats games predictions
  = Some (statsTable (buildGameMap games) predictions).
Proof.
  unfold calculatePlayerStats.
  rewrite initPlayerStats_table, <- statsAfterScoring_nil.
  change (@nil (string * Obj.t Z)) with (fechaScoresAfter []).
  rewrite scoring_loop;
    [ | apply NoDup_dedup | intros p Hp; apply In_dedup, in_map; assumption].
  cbn [app]. unfold creditFechas, statsAfterScoring.
  unfold fechaScoresAfter at 2. rewrite keys_tabulate.
  rewrite (creditFechas_loop _ _ (NoDup_dedup _) (scoredList_users _ _));
    [ | apply incl_refl].
  reflexivity.
Qed.

(** ** The game index *)

Lemma get_set {V : Type} (o : Obj.t V) (k k' : string) (v : V) :
  Obj.get (Obj.set o k v) k' = if (k =? k')%string then Some v else Obj.get o k'.
Proof.
  induction o as [ | [j w] o IH]; simpl.
  - reflexivity.
  - destruct (String.eqb_spec j k) as [-> | N]; simpl.
    + destruct (k =? k')%string; reflexivity.
    + rewrite IH. destruct (String.eqb_spec j k') as [-> | N'];
        [ | reflexivity].
      apply String.eqb_neq in N. rewrite String.eqb_sym in N. rewrite N. reflexivity.
Qed.

Lemma buildGameMap_snoc (games : list Game.t) (g : Game.t) :
  buildGameMap (games ++ [g])
  = Obj.set (buildGameMap games) (propertyKey (Game.id g)) g.
Proof. unfold buildGameMap. rewrite fold_left_app. reflexivity. Qed.

(** A lookup in the index finds the last game of the array carrying the id. *)
Lemma get_buildGameMap (games : list Game.t) (k : string) :
  Obj.get (buildGameMap games) k
  = find (fun g => (propertyKey (Game.id g) =? k)%string) (rev games).
Proof.
  induction games as [ | g games IH] using rev_ind.
  - reflexivity.
  - rewrite buildGameMap_snoc, get_set, rev_app_distr. simpl.
    destruct (propertyKey (Game.id g) =? k)%string; [reflexivity | exact IH].
Qed.

Lemma buildGameMap_In (games : list Game.t) (k : string) (g : Game.t) :
  Obj.get (buildGameMap games) k = Some g ->
  In g games /\ propertyKey (Game.id g) = k.
Proof.
  rewrite get_buildGameMap. intros H. apply find_some in H.
  destruct H as [H E]. apply in_rev in H. apply String.eqb_eq in E. tauto.
Qed.

Lemma buildGameMap_None (games : list Game.t) (k : string) :
  Obj.get (buildGameMap games) k = None ->
  forall g, In g games -> propertyKey (Game.id g) <> k.
Proof.
  rewrite get_buildGameMap. intros H g Hg E.
  apply in_rev in Hg. apply (find_none _ _ H g) in Hg.
  apply String.eqb_neq in Hg. contradiction.
Qed.

(** ** Week winners *)

Lemma Math_max_spec (rest : list Z) (s0 : Z) :
  In (Math_max s0 rest) (s0 :: rest)
  /\ forall x, In x (s0 :: rest) -> x <= Math_max s0 rest.
Proof.
  revert s0. induction rest as [ | a rest IH]; intros s0.
  - split; [left; reflexivity | intros x [<- | []]; unfold Math_max; simpl; lia].
  - change (Math_max s0 (a :: rest)) with (Math_max (Z.max s0 a) rest).
    destruct (IH (Z.max s0 a)) as [Hin Hle]. split.
    + destruct Hin as [E | Hin]; [ | right; right; assumption].
      rewrite <- E.
      destruct (Z.max_spec s0 a) as [[_ ->] | [_ ->]];
        [right; left | left]; reflexivity.
    + intros x Hx.
      assert (M : Z.max s0 a <= Math_max (Z.max s0 a) rest)
        by (apply Hle; left; reflexivity).
      destruct Hx as [<- | [<- | Hx]]; [lia | lia | apply Hle; right; assumption].
Qed.

Lemma maxOver_spec (W : string -> Z) (us : list string) (u : string) :
  In u us ->
  (exists v, In v us /\ W v = maxOver W us)
  /\ forall v, In v us -> W v <= maxOver W us.
Proof.
  intros Hu. unfold maxOver.
  destruct (map W us) as [ | s0 rest] eqn:E.
  - apply map_eq_nil in E. subst us. contradiction.
  - destruct (Math_max_spec rest s0) as [Hin Hle]. rewrite <- E in Hin, Hle. split.
    + apply in_map_iff in Hin. destruct Hin as [v [Ev Hv]]. exists v. tauto.
    + intros v Hv. apply Hle, in_map. assumption.
Qed.

(** A user wins a week exactly when the user scored in it and no user who
    scored in it has a larger week total. *)
Lemma winsWeek_iff (f u : string) (cs : list Scored) :
  winsWeek f u cs = true <->
  scoredIn f u cs = true
  /\ forall v, scoredIn f v cs = true -> weekTotal f v cs <= weekTotal f u cs.
Proof.
  unfold winsWeek. rewrite andb_true_iff, <- scoredIn_weekUsers, Z.eqb_eq.
  change (weekMax f cs)
    with (maxOver (fun u0 => weekTotal f u0 cs) (weekUsers f cs)).
  split; intros [S H]; (split; [assumption | ]);
    pose proof S as S'; rewrite scoredIn_weekUsers in S'; apply mem_In in S';
    destruct (maxOver_spec (fun u0 => weekTotal f u0 cs) _ _ S') as [[w [Hw Ew]] Hle].
  - intros v Sv. rewrite scoredIn_weekUsers in Sv. apply mem_In in Sv.
    rewrite H. apply Hle. assumption.
  - apply Z.le_antisymm; [apply Hle; assumption | ].
    rewrite <- Ew. apply H. rewrite scoredIn_weekUsers. apply mem_In. assumption.
Qed.


Lemma get_statsTable (gameMap : Obj.t Game.t) (predictions : list Prediction.t)
  (u : string) (s : PlayerStats.t) :
  Obj.get (statsTable gameMap predictions) u = Some s ->
  In u (map userKey predictions) /\ s = statsOf u (scoredList gameMap predictions).
Proof.
  unfold statsTable. rewrite get_tabulate.
  destruct (mem u (dedup (map userKey predictions))) eqn:E; [ | discriminate].
  apply mem_In in E. rewrite In_dedup in E.
  intros H. inversion H. split; [assumption | reflexivity].
Qed.


(** ** Bounds on the statistics *)

Lemma scoreWith_Some (gameMap : Obj.t Game.t) (p : Prediction.t) (s : Scored) :
  scoreWith gameMap p = Some s ->
  exists game,
    Obj.get gameMap (propertyKey (Prediction.gameId p)) = Some game
    /\ calculatePoints p (normalizedGame game) = Some (s_points s)
    /\ s_user s = userKey p
    /\ s_week s = weekLabel game.
Proof.
  unfold scoreWith.
  destruct (Obj.get gameMap (propertyKey (Prediction.gameId p))) as [game | ];
    [ | discriminate].
  destruct (calculatePoints p (normalizedGame game)) as [points | ] eqn:E;
    [ | discriminate].
  intros H. inversion H. subst. exists game. simpl. tauto.
Qed.

Lemma scoredList_points_range (gameMap : Obj.t Game.t) (l : list Prediction.t)
  (s : Scored) :
  In s (scoredList gameMap l) -> 0 <= s_points s <= 10.
Proof.
  intros H. apply In_scoredList in H. destruct H as [p [_ E]].
  apply scoreWith_Some in E. destruct E as [game [_ [E _]]].
  apply (calculatePoints_range _ _ _ E).
Qed.

Lemma sumZ_bounds (l : list Z) :
  (forall x, In x l -> 0 <= x <= 10) ->
  0 <= sumZ l <= 10 * Z.of_nat (List.length l).
Proof.
  induction l as [ | x l IH]; intros H.
  - simpl. lia.
  - cbn [sumZ fold_right List.length]. fold (sumZ l).
    assert (Hx : 0 <= x <= 10) by (apply H; left; reflexivity).
    assert (Hl : 0 <= sumZ l <= 10 * Z.of_nat (List.length l))
      by (apply IH; intros y Hy; apply H; right; assumption).
    lia.
Qed.

Lemma totalOf_bounds (u : string) (cs : list Scored) :
  (forall s, In s cs -> 0 <= s_points s <= 10) ->
  0 <= totalOf u cs <= 10 * gamesOf u cs.
Proof.
  intros H. unfold totalOf, gamesOf.
  rewrite <- (length_map s_points (filter (byUser u) cs)).
  apply sumZ_bounds. intros x Hx. apply in_map_iff in Hx.
  destruct Hx as [s [<- Hs]]. apply filter_In in Hs. apply H. tauto.
Qed.

Lemma filter_length_mono {A : Type} (f g : A -> bool) (l : list A) :
  (forall x, f x = true -> g x = true) ->
  (List.length (filter f l) <= List.length (filter g l))%nat.
Proof.
  intros H. induction l as [ | x l IH]; simpl.
  - apply Nat.le_refl.
  - destruct (f x) eqn:E.
    + rewrite (H x E). simpl. lia.
    + destruct (g x); simpl; lia.
Qed.

Lemma perfectOf_le_gamesOf (u : string) (cs : list Scored) :
  perfectOf u cs <= gamesOf u cs.
Proof.
  unfold perfectOf, gamesOf. apply Nat2Z.inj_le, filter_length_mono.
  intros s H. apply andb_true_iff in H. tauto.
Qed.

Lemma weeksOf_incl_gameWeeks (games : list Game.t) (l : list Prediction.t) :
  incl (weeksOf (scoredList (buildGameMap games) l)) (gameWeeks games).
Proof.
  intros f H. apply In_weeksOf in H. destruct H as [s [Hs W]].
  apply In_scoredList in Hs. destruct Hs as [p [_ E]].
  apply scoreWith_Some in E. destruct E as [game [G [_ [_ W']]]].
  apply buildGameMap_In in G. destruct G as [G _].
  unfold gameWeeks. apply In_dedup, in_flat_map. exists game.
  split; [assumption | ]. rewrite <- W', W. left. reflexivity.
Qed.

Lemma fechasWonOf_le_gameWeeks (games : list Game.t) (l : list Prediction.t)
  (u : string) :
  fechasWonOf u (scoredList (buildGameMap games) l)
  <= Z.of_nat (List.length (gameWeeks games)).
Proof.
  unfold fechasWonOf. apply Nat2Z.inj_le.
  eapply Nat.le_trans; [apply filter_length_le | ].
  apply NoDup_incl_length; [apply NoDup_weeksOf | apply weeksOf_incl_gameWeeks].
Qed.

(** C10. Every entry of the returned mapping has a total between 0 and ten
    times the games participated, no more perfect scores than games
    participated, and no more weeks won than there are distinct week labels
    among the games. *)
Theorem playerStats_entry_bounds (games : list Game.t)
  (predictions : list Prediction.t) :
  exists playerStats,
    calculatePlayerStats games predictions = Some playerStats
    /\ forall u stats,
         Obj.get playerStats u = Some stats ->
         0 <= PlayerStats.totalPoints stats
              <= 10 * PlayerStats.gamesParticipated stats
         /\ PlayerStats.perfectScoresCount stats
            <= PlayerStats.gamesParticipated stats
         /\ PlayerStats.fechasWonCount stats
            <= Z.of_nat (List.length (gameWeeks games)).
Proof.
  exists (statsTable (buildGameMap games) predictions).
  split; [apply calculatePlayerStats_table | ].
  intros u stats H. apply get_statsTable in H. destruct H as [_ ->].
  cbn [statsOf PlayerStats.totalPoints PlayerStats.gamesParticipated
       PlayerStats.perfectScoresCount PlayerStats.fechasWonCount].
  split; [ | split].
  - apply totalOf_bounds. intros s. apply scoredList_points_range.
  - apply perfectOf_le_gamesOf.
  - apply fechasWonOf_le_gameWeeks.
Qed.

(** ** Users, unscored predictions and dangling references *)




Lemma get_statsTable_eq (gameMap : Obj.t Game.t) (predictions : list Prediction.t)
  (u : string) :
  Obj.get (statsTable gameMap predictions) u
  = if mem u (map userKey predictions)
    then Some (statsOf u (scoredList gameMap predictions)) else None.
Proof.
  unfold statsTable. rewrite get_tabulate.
  replace (mem u (dedup (map userKey predictions)))
    with (mem u (map userKey predictions)); [reflexivity | ].
  apply eq_true_iff_eq. rewrite !mem_In, In_dedup. reflexivity.
Qed.


(** ** Range of the points, and the perfect score *)

(** C4. For a finished game with actual scores [(H, A)] and a prediction
    with entered scores [(h, a)], the points are one of 0, 1, ..., 10, and
    they are 10 exactly when [h = H] and [a = A]. *)
Theorem calculatePoints_range_and_perfect (p : Prediction.t) (g : Game.t)
  (h a H A : Z) :
  gameStatusOf g = "finished" ->
  homeScoreOf g = JVal H ->
  awayScoreOf g = JVal A ->
  Prediction.predictedHomeScore p = JVal h ->
  Prediction.predictedAwayScore p = JVal a ->
  exists n,
    calculatePoints p g = Some n
    /\ In n [0; 1; 2; 3; 4; 5; 6; 7; 8; 9; 10]
    /\ (n = 10 <-> h = H /\ a = A).
Proof.
  intros Hs HH HA Hh Ha. exists (pointsRule h a H A).
  split; [ | split].
  - rewrite calculatePoints_unfold, Hs, HH, HA, Hh, Ha. simpl.
    rewrite scoreLine_present. reflexivity.
  - pose proof (pointsRule_range h a H A) as R. simpl.
    assert (E : pointsRule h a H A = 0 \/ pointsRule h a H A = 1
                \/ pointsRule h a H A = 2 \/ pointsRule h a H A = 3
                \/ pointsRule h a H A = 4 \/ pointsRule h a H A = 5
                \/ pointsRule h a H A = 6 \/ pointsRule h a H A = 7
                \/ pointsRule h a H A = 8 \/ pointsRule h a H A = 9
                \/ pointsRule h a H A = 10) by lia.
    intuition congruence.
  - apply pointsRule_perfect.
Qed.

(** ** Missing score fields *)

(** With the actual scores stored as [null], or with another status, the
    sentinel is returned. *)
Lemma calculatePoints_not_scoreable (p : Prediction.t) (g : Game.t) :
  gameStatusOf g <> "finished" \/ homeScoreOf g = JNull \/ awayScoreOf g = JNull ->
  calculatePoints p g = None.
Proof. apply calculatePoints_null_iff. Qed.

(** With a predicted score stored as [null], a scoreable game gives 0. *)
Lemma calculatePoints_null_prediction (p : Prediction.t) (g : Game.t) :
  calculatePoints p g <> None ->
  Prediction.predictedHomeScore p = JNull \/ Prediction.predictedAwayScore p = JNull ->
  calculatePoints p g = Some 0.
Proof.
  rewrite calculatePoints_unfold.
  destruct (negb (gameStatusOf g =? "finished")%string
            || is_null (homeScoreOf g) || is_null (awayScoreOf g))%bool;
    [congruence | ].
  intros _ [E | E]; rewrite E; simpl; [reflexivity | ].
  rewrite orb_true_r. reflexivity.
Qed.

(** C3. A finished game whose score fields are missing altogether is not
    answered with the sentinel: the guard only tests for [null], and a draw
    prediction is awarded the 5 outcome points; the aggregator then counts
    the prediction as a participation. *)
Theorem calculatePoints_missing_actual_scores :
  let game := Game.mk (JVal "G1") (JVal "finished") JUndefined
                      JUndefined JUndefined JUndefined JUndefined
                      JUndefined JUndefined in
  let prediction := Prediction.mk (JVal "ana") (JVal "G1") (JVal 1) (JVal 1)
                                  (JVal "Ana") (JVal 1) in
  gameStatusOf game = "finished"
  /\ homeScoreOf game = JUndefined
  /\ awayScoreOf game = JUndefined
  /\ calculatePoints prediction game = Some 5
  /\ calculatePlayerStats [game] [prediction]
     = Some [("ana", PlayerStats.mk 5 0 0 1)].
Proof. repeat split. Qed.

(** C5. A prediction whose two score fields are missing altogether does not
    receive 0 against a finished draw: the guard only tests for [null], and
    the prediction is awarded the 5 outcome points. *)
Theorem calculatePoints_missing_predicted_scores :
  let game := Game.mk (JVal "G1") (JVal "finished") JUndefined
                      (JVal 1) JUndefined (JVal 1) JUndefined
                      JUndefined JUndefined in
  let prediction := Prediction.mk (JVal "ana") (JVal "G1") JUndefined JUndefined
                                  (JVal "Ana") (JVal 1) in
  calculatePoints prediction game = Some 5
  /\ calculatePlayerStats [game] [prediction]
     = Some [("ana", PlayerStats.mk 5 0 0 1)].
Proof. repeat split. Qed.

(** ** The two naming conventions *)

Lemma calculatePoints_ext (p : Prediction.t) (g g' : Game.t) :
  gameStatusOf g = gameStatusOf g' ->
  homeScoreOf g = homeScoreOf g' ->
  awayScoreOf g = awayScoreOf g' ->
  calculatePoints p g = calculatePoints p g'.
Proof.
  intros E1 E2 E3. rewrite !calculatePoints_unfold, E1, E2, E3. reflexivity.
Qed.

Lemma js_or_undefined_r (st : jsval string) :
  js_or_str (js_or st JUndefined) "" = js_or_str st "".
Proof.
  destruct st as [ | | s]; try reflexivity.
  unfold js_or, truthy, js_or_str.
  destruct (s =? "")%string eqn:E; simpl; [reflexivity | rewrite E; reflexivity].
Qed.

Lemma undefined_or (v : jsval Z) :
  (if negb (is_undefined v) then v else JUndefined) = v.
Proof. destruct v; reflexivity. Qed.

Lemma conventions_sameForScoring (id st : jsval string) (home away : jsval Z)
  (fecha Fecha : jsval string) :
  sameForScoring (capitalizedGame id st home away fecha Fecha)
                 (lowercaseGame id st home away fecha Fecha).
Proof.
  unfold sameForScoring, capitalizedGame, lowercaseGame, normalizedGame, weekLabel.
  cbn [Game.id Game.status Game.Status Game.homeScore Game.HomeScore
       Game.awayScore Game.AwayScore Game.fecha Game.Fecha].
  rewrite js_or_undefined_r, !undefined_or. repeat split.
Qed.

Lemma sameForScoring_refl (g : Game.t) : sameForScoring g g.
Proof. repeat split. Qed.

Lemma Forall2_same {A : Type} (R : A -> A -> Prop) (l : list A) :
  (forall x, R x x) -> Forall2 R l l.
Proof. intros H. induction l; constructor; auto. Qed.

Lemma Forall2_rev_rev {A : Type} (R : A -> A -> Prop) (l l' : list A) :
  Forall2 R l l' -> Forall2 R (rev l) (rev l').
Proof.
  induction 1 as [ | x y l l' Hxy _ IH]; simpl.
  - constructor.
  - apply Forall2_app; [assumption | constructor; [assumption | constructor]].
Qed.

Lemma find_related (k : string) (l l' : list Game.t) :
  Forall2 sameForScoring l l' ->
  match find (fun g => (propertyKey (Game.id g) =? k)%string) l,
        find (fun g => (propertyKey (Game.id g) =? k)%string) l' with
  | Some g, Some g' => sameForScoring g g'
  | None, None => True
  | _, _ => False
  end.
Proof.
  induction 1 as [ | g g' l l' Hg _ IH]; simpl.
  - exact I.
  - destruct Hg as [Hid Hrest]. rewrite <- Hid.
    destruct (propertyKey (Game.id g) =? k)%string; [ | exact IH].
    split; assumption.
Qed.

Lemma scoreWith_related (games games' : list Game.t) (p : Prediction.t) :
  Forall2 sameForScoring games games' ->
  scoreWith (buildGameMap games) p = scoreWith (buildGameMap games') p.
Proof.
  intros H. unfold scoreWith. rewrite !get_buildGameMap.
  pose proof (find_related (propertyKey (Prediction.gameId p)) _ _
                (Forall2_rev_rev _ _ _ H)) as F.
  destruct (find _ (rev games)) as [g | ], (find _ (rev games')) as [g' | ];
    try contradiction; [ | reflexivity].
  destruct F as [_ [-> ->]]. reflexivity.
Qed.

Lemma statsTable_related (games games' : list Game.t) (l : list Prediction.t) :
  Forall2 sameForScoring games games' ->
  statsTable (buildGameMap games) l = statsTable (buildGameMap games') l.
Proof.
  intros H. unfold statsTable.
  replace (scoredList (buildGameMap games') l) with (scoredList (buildGameMap games) l);
    [reflexivity | ].
  unfold scoredList. apply flat_map_ext. intros p.
  rewrite (scoreWith_related _ _ p H). reflexivity.
Qed.

(** C9. A game carrying its status and scores only in the capitalised
    fields and the same game carrying them only in the lowercase fields get
    the same result from [calculatePoints] for every prediction, and can
    replace one another in the games array without changing what
    [calculatePlayerStats] returns; and two statuses that differ only in the
    case of their letters give the same points. *)
Theorem naming_conventions_agree (id st : jsval string) (home away : jsval Z)
  (fecha Fecha : jsval string) :
  (forall p,
      calculatePoints p (capitalizedGame id st home away fecha Fecha)
      = calculatePoints p (lowercaseGame id st home away fecha Fecha))
  /\ (forall games1 games2 predictions,
         calculatePlayerStats
           (games1 ++ capitalizedGame id st home away fecha Fecha :: games2)
           predictions
         = calculatePlayerStats
             (games1 ++ lowercaseGame id st home away fecha Fecha :: games2)
             predictions)
  /\ (forall p s s',
         toLowerCase s = toLowerCase s' ->
         calculatePoints p (lowercaseGame id (JVal s) home away fecha Fecha)
         = calculatePoints p (lowercaseGame id (JVal s') home away fecha Fecha)
         /\ calculatePoints p (capitalizedGame id (JVal s) home away fecha Fecha)
            = calculatePoints p (capitalizedGame id (JVal s') home away fecha Fecha)).
Proof.
  split; [ | split].
  - intros p. apply calculatePoints_ext.
    + unfold gameStatusOf, capitalizedGame, lowercaseGame. simpl.
      rewrite js_or_undefined_r. reflexivity.
    + unfold homeScoreOf, capitalizedGame, lowercaseGame. simpl.
      destruct home; reflexivity.
    + unfold awayScoreOf, capitalizedGame, lowercaseGame. simpl.
      destruct away; reflexivity.
  - intros games1 games2 predictions. rewrite !calculatePlayerStats_table.
    f_equal. apply statsTable_related, Forall2_app.
    + apply Forall2_same, sameForScoring_refl.
    + constructor; [apply conventions_sameForScoring | ].
      apply Forall2_same, sameForScoring_refl.
  - assert (L : forall s s', toLowerCase s = toLowerCase s' ->
                  toLowerCase (js_or_str (JVal s) "")
                  = toLowerCase (js_or_str (JVal s') "")).
    { intros s s' E. unfold js_or_str.
      destruct s, s'; simpl in *; congruence. }
    intros p s s' E. split; apply calculatePoints_ext; try reflexivity.
    + unfold gameStatusOf, lowercaseGame. simpl.
      rewrite !js_or_undefined_r. apply L, E.
    + unfold gameStatusOf, capitalizedGame. simpl.
      change (js_or JUndefined (JVal s)) with (JVal s).
      change (js_or JUndefined (JVal s')) with (JVal s'). apply L, E.
Qed.

(** ** Stable sorting with a consistent comparator *)

Section StableSort.

Variable A : Type.
Variable cmp : A -> A -> Z.

Hypothesis cmp_total : forall a b, cmp a b <= 0 \/ cmp b a <= 0.
Hypothesis cmp_trans : forall a b c, cmp a b <= 0 -> cmp b c <= 0 -> cmp a c <= 0.

Lemma insertBy_perm (x : A) (l : list A) : Permutation (x :: l) (insertBy cmp x l).
Proof.
  induction l as [ | y l IH]; simpl.
  - apply Permutation_refl.
  - destruct (cmp x y <=? 0).
    + apply Permutation_refl.
    + eapply perm_trans; [apply perm_swap | apply perm_skip, IH].
Qed.

Lemma stableSort_perm (l : list A) : Permutation l (stableSort cmp l).
Proof.
  induction l as [ | x l IH]; simpl.
  - apply perm_nil.
  - eapply perm_trans; [apply perm_skip, IH | apply insertBy_perm].
Qed.

Lemma insertBy_sorted (x : A) (l : list A) :
  StronglySorted (fun a b => cmp a b <= 0) l ->
  StronglySorted (fun a b => cmp a b <= 0) (insertBy cmp x l).
Proof.
  induction l as [ | y l IH]; intros S; simpl.
  - constructor; constructor.
  - apply StronglySorted_inv in S. destruct S as [S F].
    destruct (cmp x y <=? 0) eqn:E.
    + apply Z.leb_le in E. constructor.
      * constructor; assumption.
      * constructor; [assumption | ].
        apply Forall_forall. intros z Hz.
        apply (cmp_trans x y z E). revert z Hz. apply Forall_forall. assumption.
    + apply Z.leb_gt in E. constructor; [apply IH; assumption | ].
      apply Forall_forall. intros z Hz.
      apply (Permutation_in _ (Permutation_sym (insertBy_perm x l))) in Hz.
      destruct Hz as [<- | Hz].
      * destruct (cmp_total x y); [lia | assumption].
      * revert z Hz. apply Forall_forall. assumption.
Qed.

Lemma stableSort_sorted (l : list A) :
  StronglySorted (fun a b => cmp a b <= 0) (stableSort cmp l).
Proof.
  induction l as [ | x l IH]; simpl.
  - constructor.
  - apply insertBy_sorted. assumption.
Qed.

End StableSort.

Arguments insertBy_perm {A} cmp x l.
Arguments stableSort_perm {A} cmp l.
Arguments stableSort_sorted {A} cmp _ _ l.

Lemma stableSort_ext {A : Type} (cmp cmp' : A -> A -> Z) (l : list A) :
  (forall a b, cmp a b = cmp' a b) -> stableSort cmp l = stableSort cmp' l.
Proof.
  intros H. induction l as [ | x l IH]; simpl; [reflexivity | ].
  rewrite IH. generalize (stableSort cmp' l) as s.
  induction s as [ | y s IHs]; simpl; [reflexivity | ].
  rewrite H, IHs. reflexivity.
Qed.

(** Two sorted arrangements of the same elements coincide when no two
    distinct elements compare as equal. *)
Lemma sorted_unique {A : Type} (R : A -> A -> Prop) (l l' : list A) :
  StronglySorted R l -> StronglySorted R l' -> Permutation l l' ->
  (forall a b, In a l -> In b l -> R a b -> R b a -> a = b) ->
  l = l'.
Proof.
  revert l'. induction l as [ | a l IH]; intros l' S S' P Anti.
  - apply Permutation_nil in P. subst. reflexivity.
  - destruct l' as [ | b l'].
    + apply Permutation_sym, Permutation_nil in P. discriminate.
    + apply StronglySorted_inv in S. destruct S as [S F].
      apply StronglySorted_inv in S'. destruct S' as [S' F'].
      assert (E : a = b).
      { assert (Hb : In b (a :: l))
          by (apply (Permutation_in _ (Permutation_sym P)); left; reflexivity).
        assert (Ha : In a (b :: l'))
          by (apply (Permutation_in _ P); left; reflexivity).
        destruct Hb as [Hb | Hb]; [assumption | ].
        destruct Ha as [Ha | Ha]; [congruence | ].
        apply Anti; [left; reflexivity | right; assumption | | ].
        - exact (proj1 (Forall_forall _ _) F b Hb).
        - exact (proj1 (Forall_forall _ _) F' a Ha). }
      subst b. f_equal. apply IH; [assumption | assumption | | ].
      * apply (Permutation_cons_inv P).
      * intros x y Hx Hy. apply Anti; right; assumption.
Qed.

(** ** Display names *)

Lemma hasUserId_iff (u : string) (p : Prediction.t) :
  hasUserId u p = true <-> Prediction.userId p = JVal u.
Proof.
  unfold hasUserId. destruct (Prediction.userId p) as [ | | v].
  - split; discriminate.
  - split; discriminate.
  - rewrite String.eqb_eq. split; congruence.
Qed.

Lemma latest_fold_spec (l : list Prediction.t) (first : Prediction.t) :
  let latest :=
    fold_left (fun latest pred =>
                 if predTime latest <? predTime pred then pred else latest)
              l first in
  In latest (first :: l)
  /\ predTime first <= predTime latest
  /\ forall q, In q l -> predTime q <= predTime latest.
Proof.
  revert first. induction l as [ | x l IH]; intros first; simpl.
  - split; [left; reflexivity | ]. split; [lia | intros q []].
  - destruct (IH (if predTime first <? predTime x then x else first))
      as [Hin [Hle Hall]].
    split; [ | split].
    + destruct Hin as [E | Hin]; [ | right; right; assumption].
      rewrite <- E. destruct (predTime first <? predTime x);
        [right; left | left]; reflexivity.
    + destruct (Z.ltb_spec (predTime first) (predTime x)); lia.
    + intros q [<- | Hq]; [ | apply Hall; assumption].
      destruct (Z.ltb_spec (predTime first) (predTime x)); lia.
Qed.

(** The display name is the user id when no prediction carries it, and
    otherwise the [playerName] (or, failing that, the user id) of one of the
    user's predictions with the greatest time. *)
Lemma getLatestPlayerName_spec (predictions : list Prediction.t) (u : string) :
  match filter (hasUserId u) predictions with
  | [] => getLatestPlayerName predictions u = u
  | _ :: _ =>
      exists latest,
        In latest (filter (hasUserId u) predictions)
        /\ (forall q, In q (filter (hasUserId u) predictions) ->
                      predTime q <= predTime latest)
        /\ getLatestPlayerName predictions u
           = js_or_str (Prediction.playerName latest) u
  end.
Proof.
  unfold getLatestPlayerName.
  destruct (filter (hasUserId u) predictions) as [ | first rest] eqn:E.
  - reflexivity.
  - destruct (latest_fold_spec (first :: rest) first) as [Hin [_ Hall]].
    eexists. split; [ | split; [ | reflexivity]].
    + destruct Hin as [<- | Hin]; [left; reflexivity | exact Hin].
    + exact Hall.
Qed.

Lemma Permutation_filter {A : Type} (f : A -> bool) (l l' : list A) :
  Permutation l l' -> Permutation (filter f l) (filter f l').
Proof.
  induction 1 as [ | x l l' _ IH | x y l | l l' l'' _ IH1 _ IH2]; simpl.
  - apply perm_nil.
  - destruct (f x); [apply perm_skip | ]; assumption.
  - destruct (f x), (f y); try apply Permutation_refl. apply perm_swap.
  - eapply perm_trans; eassumption.
Qed.

(** Reordering the predictions keeps a display name when the user's
    predictions with equal times carry the same [playerName]. *)
Lemma getLatestPlayerName_perm (predictions predictions' : list Prediction.t)
  (u : string) :
  Permutation predictions predictions' ->
  (forall p q, In p predictions -> In q predictions ->
               Prediction.userId p = Prediction.userId q ->
               predTime p = predTime q ->
               Prediction.playerName p = Prediction.playerName q) ->
  getLatestPlayerName predictions u = getLatestPlayerName predictions' u.
Proof.
  intros P Hname.
  pose proof (Permutation_filter (hasUserId u) _ _ P) as PF.
  pose proof (getLatestPlayerName_spec predictions u) as S.
  pose proof (getLatestPlayerName_spec predictions' u) as S'.
  destruct (filter (hasUserId u) predictions) as [ | x l] eqn:E.
  - apply Permutation_nil in PF. rewrite PF in S'. congruence.
  - destruct (filter (hasUserId u) predictions') as [ | x' l'] eqn:E'.
    + apply Permutation_sym, Permutation_nil in PF. discriminate.
    + destruct S as [m [Hm [Hmax ->]]]. destruct S' as [m' [Hm' [Hmax' ->]]].
      assert (Hm2 : In m' (x :: l))
        by (apply (Permutation_in _ (Permutation_sym PF)); assumption).
      assert (Hm3 : In m (x' :: l')) by (apply (Permutation_in _ PF); assumption).
      assert (T : predTime m = predTime m')
        by (apply Z.le_antisymm; [apply Hmax' | apply Hmax]; assumption).
      rewrite <- E in Hm, Hm2. apply filter_In in Hm, Hm2.
      destruct Hm as [Im Um], Hm2 as [Im' Um'].
      apply hasUserId_iff in Um, Um'.
      rewrite (Hname m m' Im Im'); [reflexivity | congruence | assumption].
Qed.

(** ** The leaderboard order *)


Section LeaderboardOrder.

Variable localeCompare : string -> string -> Z.

(** [localeCompare] is a consistent comparison of strings. *)
Hypothesis localeCompare_antisym :
  forall a b, localeCompare a b < 0 <-> 0 < localeCompare b a.
Hypothesis localeCompare_trans :
  forall a b c, localeCompare a b <= 0 -> localeCompare b c <= 0 ->
                localeCompare a c <= 0.

Variable predictions : list Prediction.t.

Lemma comparePlayers_le_iff (a b : string * PlayerStats.t) :
  comparePlayers localeCompare predictions a b <= 0
  <-> ranksBefore localeCompare predictions a b.
Proof.
  destruct a as [idA statsA], b as [idB statsB].
  unfold comparePlayers, ranksBefore. cbn [fst snd].
  destruct (Z.eqb_spec (PlayerStats.totalPoints statsB)
                       (PlayerStats.totalPoints statsA));
    destruct (Z.eqb_spec (PlayerStats.fechasWonCount statsB)
                         (PlayerStats.fechasWonCount statsA));
    destruct (Z.eqb_spec (PlayerStats.perfectScoresCount statsB)
                         (PlayerStats.perfectScoresCount statsA));
    cbn [negb]; lia.
Qed.

Lemma comparePlayers_antisym (a b : string * PlayerStats.t) :
  comparePlayers localeCompare predictions a b < 0
  <-> 0 < comparePlayers localeCompare predictions b a.
Proof.
  destruct a as [idA statsA], b as [idB statsB].
  unfold comparePlayers.
  pose proof (localeCompare_antisym (getLatestPlayerName predictions idA)
                                    (getLatestPlayerName predictions idB)).
  destruct (Z.eqb_spec (PlayerStats.totalPoints statsB)
                       (PlayerStats.totalPoints statsA));
    destruct (Z.eqb_spec (PlayerStats.totalPoints statsA)
                         (PlayerStats.totalPoints statsB));
    destruct (Z.eqb_spec (PlayerStats.fechasWonCount statsB)
                         (PlayerStats.fechasWonCount statsA));
    destruct (Z.eqb_spec (PlayerStats.fechasWonCount statsA)
                         (PlayerStats.fechasWonCount statsB));
    destruct (Z.eqb_spec (PlayerStats.perfectScoresCount statsB)
                         (PlayerStats.perfectScoresCount statsA));
    destruct (Z.eqb_spec (PlayerStats.perfectScoresCount statsA)
                         (PlayerStats.perfectScoresCount statsB));
    cbn [negb]; lia.
Qed.

Lemma comparePlayers_total (a b : string * PlayerStats.t) :
  comparePlayers localeCompare predictions a b <= 0
  \/ comparePlayers localeCompare predictions b a <= 0.
Proof.
  pose proof (comparePlayers_antisym a b).
  pose proof (comparePlayers_antisym b a). lia.
Qed.

Lemma comparePlayers_trans (a b c : string * PlayerStats.t) :
  comparePlayers localeCompare predictions a b <= 0 ->
  comparePlayers localeCompare predictions b c <= 0 ->
  comparePlayers localeCompare predictions a c <= 0.
Proof.
  rewrite !comparePlayers_le_iff. unfold ranksBefore.
  pose proof (localeCompare_trans (getLatestPlayerName predictions (fst a))
                                  (getLatestPlayerName predictions (fst b))
                                  (getLatestPlayerName predictions (fst c))).
  lia.
Qed.


End LeaderboardOrder.


(** ** A sample collation *)

Lemma ascii_compare_refl (x : ascii) : Ascii.compare x x = Eq.
Proof. unfold Ascii.compare. apply N.compare_refl. Qed.

Lemma string_compare_trans (a b c : string) :
  String.compare a b <> Gt -> String.compare b c <> Gt -> String.compare a c <> Gt.
Proof.
  revert b c. induction a as [ | x a IH]; intros b c;
    destruct b as [ | y b], c as [ | z c]; simpl; try congruence.
  destruct (Ascii.compare x y) eqn:E1, (Ascii.compare y z) eqn:E2; try congruence.
  - apply Ascii.compare_eq_iff in E1, E2. subst.
    rewrite ascii_compare_refl. apply IH.
  - apply Ascii.compare_eq_iff in E1. subst. rewrite E2. congruence.
  - apply Ascii.compare_eq_iff in E2. subst. rewrite E1. congruence.
  - assert (E : Ascii.compare x z = Lt).
    { unfold Ascii.compare in *. rewrite N.compare_lt_iff in *. lia. }
    rewrite E. congruence.
Qed.

Lemma codeUnitCompare_le (a b : string) :
  codeUnitCompare a b <= 0 <-> String.compare a b <> Gt.
Proof.
  unfold codeUnitCompare. destruct (String.compare a b); split; try lia; congruence.
Qed.

Lemma codeUnitCompare_antisym (a b : string) :
  codeUnitCompare a b < 0 <-> 0 < codeUnitCompare b a.
Proof.
  unfold codeUnitCompare. rewrite (String.compare_antisym b a).
  destruct (String.compare a b); simpl; lia.
Qed.

Lemma codeUnitCompare_trans (a b c : string) :
  codeUnitCompare a b <= 0 -> codeUnitCompare b c <= 0 -> codeUnitCompare a c <= 0.
Proof. rewrite !codeUnitCompare_le. apply string_compare_trans. Qed.

(** ** Order independence of the statistics *)

Lemma Permutation_flat_map {A B : Type} (f : A -> list B) (l l' : list A) :
  Permutation l l' -> Permutation (flat_map f l) (flat_map f l').
Proof.
  induction 1 as [ | x l l' _ IH | x y l | l l' l'' _ IH1 _ IH2]; simpl.
  - apply perm_nil.
  - apply Permutation_app_head. assumption.
  - rewrite !app_assoc. apply Permutation_app_tail, Permutation_app_comm.
  - eapply perm_trans; eassumption.
Qed.

Lemma sumZ_perm (l l' : list Z) : Permutation l l' -> sumZ l = sumZ l'.
Proof.
  induction 1 as [ | x l l' _ IH | x y l | l l' l'' _ IH1 _ IH2]; simpl; lia.
Qed.

Lemma scoredList_perm (gameMap : Obj.t Game.t) (l l' : list Prediction.t) :
  Permutation l l' -> Permutation (scoredList gameMap l) (scoredList gameMap l').
Proof. apply Permutation_flat_map. Qed.

Lemma totalOf_perm (u : string) (cs cs' : list Scored) :
  Permutation cs cs' -> totalOf u cs = totalOf u cs'.
Proof.
  intros P. unfold totalOf. apply sumZ_perm, Permutation_map, Permutation_filter, P.
Qed.

Lemma gamesOf_perm (u : string) (cs cs' : list Scored) :
  Permutation cs cs' -> gamesOf u cs = gamesOf u cs'.
Proof.
  intros P. unfold gamesOf. f_equal. apply Permutation_length, Permutation_filter, P.
Qed.

Lemma perfectOf_perm (u : string) (cs cs' : list Scored) :
  Permutation cs cs' -> perfectOf u cs = perfectOf u cs'.
Proof.
  intros P. unfold perfectOf. f_equal.
  apply Permutation_length, Permutation_filter, P.
Qed.

Lemma weekTotal_perm (f u : string) (cs cs' : list Scored) :
  Permutation cs cs' -> weekTotal f u cs = weekTotal f u cs'.
Proof.
  intros P. unfold weekTotal.
  apply sumZ_perm, Permutation_map, Permutation_filter, P.
Qed.

Lemma scoredIn_perm (f u : string) (cs cs' : list Scored) :
  Permutation cs cs' -> scoredIn f u cs = scoredIn f u cs'.
Proof.
  intros P. apply eq_true_iff_eq. unfold scoredIn. rewrite !existsb_exists.
  split; intros [s [Hs H]]; exists s; (split; [ | assumption]).
  - apply (Permutation_in _ P). assumption.
  - apply (Permutation_in _ (Permutation_sym P)). assumption.
Qed.

Lemma winsWeek_perm (f u : string) (cs cs' : list Scored) :
  Permutation cs cs' -> winsWeek f u cs = winsWeek f u cs'.
Proof.
  intros P. apply eq_true_iff_eq. rewrite !winsWeek_iff.
  rewrite (scoredIn_perm f u cs cs' P), (weekTotal_perm f u cs cs' P).
  split; intros [S H]; (split; [assumption | ]); intros v Sv.
  - rewrite <- (weekTotal_perm f v cs cs' P). apply H.
    rewrite (scoredIn_perm f v cs cs' P). assumption.
  - rewrite (weekTotal_perm f v cs cs' P). apply H.
    rewrite <- (scoredIn_perm f v cs cs' P). assumption.
Qed.

Lemma weeksOf_perm (cs cs' : list Scored) :
  Permutation cs cs' -> Permutation (weeksOf cs) (weeksOf cs').
Proof.
  intros P. apply NoDup_Permutation; try apply NoDup_weeksOf.
  intros f. rewrite !In_weeksOf.
  split; intros [s [Hs W]]; exists s; (split; [ | assumption]).
  - apply (Permutation_in _ P). assumption.
  - apply (Permutation_in _ (Permutation_sym P)). assumption.
Qed.

Lemma fechasWonOf_perm (u : string) (cs cs' : list Scored) :
  Permutation cs cs' -> fechasWonOf u cs = fechasWonOf u cs'.
Proof.
  intros P. unfold fechasWonOf. f_equal.
  rewrite (filter_ext (fun f => winsWeek f u cs) (fun f => winsWeek f u cs'))
    by (intros f; apply winsWeek_perm; assumption).
  apply Permutation_length, Permutation_filter, weeksOf_perm, P.
Qed.

Lemma statsOf_perm (u : string) (cs cs' : list Scored) :
  Permutation cs cs' -> statsOf u cs = statsOf u cs'.
Proof.
  intros P. unfold statsOf.
  rewrite (totalOf_perm u _ _ P), (fechasWonOf_perm u _ _ P),
    (perfectOf_perm u _ _ P), (gamesOf_perm u _ _ P).
  reflexivity.
Qed.

Lemma find_unique (k : string) (l : list Game.t) (g : Game.t) :
  NoDup (map gameKey l) -> In g l -> gameKey g = k ->
  find (fun g' => (propertyKey (Game.id g') =? k)%string) l = Some g.
Proof.
  induction l as [ | x l IH]; simpl; intros ND Hin E.
  - contradiction.
  - inversion ND as [ | ? ? Hn ND']; subst.
    destruct Hin as [-> | Hin].
    + fold (gameKey g). rewrite String.eqb_refl. reflexivity.
    + fold (gameKey x). destruct (String.eqb_spec (gameKey x) (gameKey g)) as [Ex | ].
      * exfalso. apply Hn. rewrite Ex. apply in_map. assumption.
      * apply IH; auto.
Qed.

(** With distinct ids, the index does not depend on the order of the games. *)
Lemma get_buildGameMap_perm (games games' : list Game.t) (k : string) :
  NoDup (map gameKey games) -> Permutation games games' ->
  Obj.get (buildGameMap games) k = Obj.get (buildGameMap games') k.
Proof.
  intros ND P. rewrite !get_buildGameMap.
  assert (ND' : NoDup (map gameKey (rev games'))).
  { apply (Permutation_NoDup (l := map gameKey games)); [ | assumption].
    apply Permutation_map.
    eapply perm_trans; [exact P | apply Permutation_rev]. }
  destruct (find _ (rev games)) as [g | ] eqn:E.
  - apply find_some in E. destruct E as [Hg Ek]. apply String.eqb_eq in Ek.
    symmetry. apply find_unique; [assumption | | assumption].
    apply -> in_rev. apply (Permutation_in _ P). apply in_rev. assumption.
  - destruct (find _ (rev games')) as [g' | ] eqn:E'; [ | reflexivity].
    apply find_some in E'. destruct E' as [Hg Ek].
    assert (Hin : In g' (rev games)).
    { apply -> in_rev. apply (Permutation_in _ (Permutation_sym P)).
      apply in_rev. assumption. }
    rewrite (find_none _ _ E g' Hin) in Ek. discriminate.
Qed.

(** The mapping does not depend on the order of the predictions, nor on the
    order of games with distinct ids. *)
Lemma statsTable_perm (games games' : list Game.t) (l l' : list Prediction.t)
  (u : string) :
  NoDup (map gameKey games) -> Permutation games games' -> Permutation l l' ->
  Obj.get (statsTable (buildGameMap games) l) u
  = Obj.get (statsTable (buildGameMap games') l') u.
Proof.
  intros ND PG PL. rewrite !get_statsTable_eq.
  replace (mem u (map userKey l')) with (mem u (map userKey l)).
  - replace (scoredList (buildGameMap games') l')
      with (scoredList (buildGameMap games) l').
    + rewrite (statsOf_perm u _ _ (scoredList_perm (buildGameMap games) l l' PL)).
      reflexivity.
    + unfold scoredList. apply flat_map_ext. intros p. unfold scoreWith.
      rewrite (get_buildGameMap_perm games games' _ ND PG). reflexivity.
  - apply eq_true_iff_eq. rewrite !mem_In. split; apply Permutation_in.
    + apply Permutation_map. assumption.
    + apply Permutation_map, Permutation_sym. assumption.
Qed.

Lemma statsOf_scoredList_perm (games games' : list Game.t) (l l' : list Prediction.t)
  (u : string) :
  NoDup (map gameKey games) -> Permutation games games' -> Permutation l l' ->
  statsOf u (scoredList (buildGameMap games) l)
  = statsOf u (scoredList (buildGameMap games') l').
Proof.
  intros ND PG PL.
  replace (scoredList (buildGameMap games') l')
    with (scoredList (buildGameMap games) l').
  - apply statsOf_perm, scoredList_perm, PL.
  - unfold scoredList. apply flat_map_ext. intros p. unfold scoreWith.
    rewrite (get_buildGameMap_perm games games' _ ND PG). reflexivity.
Qed.

Lemma statsTable_entries_perm (games games' : list Game.t)
  (l l' : list Prediction.t) :
  NoDup (map gameKey games) -> Permutation games games' -> Permutation l l' ->
  Permutation (statsTable (buildGameMap games) l)
              (statsTable (buildGameMap games') l').
Proof.
  intros ND PG PL. unfold statsTable.
  rewrite (tabulate_ext
             (fun u => statsOf u (scoredList (buildGameMap games') l'))
             (fun u => statsOf u (scoredList (buildGameMap games) l))
             (dedup (map userKey l')))
    by (intros k _; symmetry; apply statsOf_scoredList_perm; assumption).
  unfold Obj.tabulate. apply Permutation_map.
  apply NoDup_Permutation; try apply NoDup_dedup.
  intros u. rewrite !In_dedup. split; apply Permutation_in.
  - apply Permutation_map. assumption.
  - apply Permutation_map, Permutation_sym. assumption.
Qed.

Lemma comparePlayers_perm (localeCompare : string -> string -> Z)
  (l l' : list Prediction.t) (a b : string * PlayerStats.t) :
  (forall u, getLatestPlayerName l u = getLatestPlayerName l' u) ->
  comparePlayers localeCompare l a b = comparePlayers localeCompare l' a b.
Proof.
  intros H. destruct a as [idA statsA], b as [idB statsB].
  unfold comparePlayers. rewrite !H. reflexivity.
Qed.

(** C8, as amended.  Permuting the predictions, and permuting games whose
    ids are pairwise distinct, leaves the stats found under every user id
    unchanged.  The ranking is unchanged as well when predictions of one
    user with equal times carry the same [playerName] and no two distinct
    users compare as equal. *)
Theorem stats_and_ranking_order_independent
  (localeCompare : string -> string -> Z)
  (localeCompare_antisym :
     forall a b, localeCompare a b < 0 <-> 0 < localeCompare b a)
  (localeCompare_trans :
     forall a b c, localeCompare a b <= 0 -> localeCompare b c <= 0 ->
                   localeCompare a c <= 0)
  (games games' : list Game.t) (predictions predictions' : list Prediction.t) :
  Permutation predictions predictions' ->
  Permutation games games' ->
  NoDup (map gameKey games) ->
  exists playerStats playerStats',
    calculatePlayerStats games predictions = Some playerStats
    /\ calculatePlayerStats games' predictions' = Some playerStats'
    /\ (forall u, Obj.get playerStats u = Obj.get playerStats' u)
    /\ ((forall p q, In p predictions -> In q predictions ->
                     Prediction.userId p = Prediction.userId q ->
                     predTime p = predTime q ->
                     Prediction.playerName p = Prediction.playerName q) ->
        (forall a b, In a (Obj.entries playerStats) ->
                     In b (Obj.entries playerStats) ->
                     fst a <> fst b ->
                     comparePlayers localeCompare predictions a b <> 0) ->
        sortPlayersByStats localeCompare playerStats predictions
        = sortPlayersByStats localeCompare playerStats' predictions').
Proof.
  intros PL PG ND.
  exists (statsTable (buildGameMap games) predictions),
         (statsTable (buildGameMap games') predictions').
  split; [apply calculatePlayerStats_table | ].
  split; [apply calculatePlayerStats_table | ].
  split; [intros u; apply statsTable_perm; assumption | ].
  intros Hname Htie. unfold sortPlayersByStats, Obj.entries in *.
  set (cmp := comparePlayers localeCompare predictions).
  rewrite (stableSort_ext (comparePlayers localeCompare predictions') cmp).
  2: { intros a b. symmetry. apply comparePlayers_perm. intros u.
       apply getLatestPlayerName_perm; assumption. }
  pose proof (statsTable_entries_perm games games' predictions predictions'
                ND PG PL) as PT.
  assert (Tot : forall a b, cmp a b <= 0 \/ cmp b a <= 0)
    by (apply comparePlayers_total; assumption).
  assert (Tr : forall a b c, cmp a b <= 0 -> cmp b c <= 0 -> cmp a c <= 0)
    by (apply comparePlayers_trans; assumption).
  apply (sorted_unique (fun a b => cmp a b <= 0)).
  - apply stableSort_sorted; assumption.
  - apply stableSort_sorted; assumption.
  - eapply perm_trans; [apply Permutation_sym, stableSort_perm | ].
    eapply perm_trans; [exact PT | apply stableSort_perm].
  - intros a b Ha Hb Rab Rba.
    apply (Permutation_in _ (Permutation_sym (stableSort_perm cmp _))) in Ha, Hb.
    assert (Z0 : cmp a b = 0).
    { pose proof (comparePlayers_antisym localeCompare localeCompare_antisym
                    predictions a b).
      pose proof (comparePlayers_antisym localeCompare localeCompare_antisym
                    predictions b a).
      unfold cmp in *. lia. }
    destruct (string_dec (fst a) (fst b)) as [E | N].
    + unfold statsTable, Obj.tabulate in Ha, Hb.
      apply in_map_iff in Ha, Hb.
      destruct Ha as [ka [<- _]], Hb as [kb [<- _]].
      simpl in E. subst. reflexivity.
    + exfalso. exact (Htie a b Ha Hb N Z0).
Qed.

(** C8, as stated, fails.  Two users with the same display name and equal
    stats are ranked in the order in which the predictions array introduces
    them; of two predictions of one user with the same time, the one that
    comes first gives the display name; and with two games under one id, the
    game that comes last is the one that is scored. *)
Lemma ranking_depends_on_input_order :
  let g := Game.mk (JVal "G1") (JVal "finished") JUndefined
                   (JVal 1) JUndefined (JVal 0) JUndefined
                   (JVal "W1") JUndefined in
  let g' := Game.mk (JVal "G1") (JVal "finished") JUndefined
                    (JVal 0) JUndefined (JVal 1) JUndefined
                    (JVal "W1") JUndefined in
  let p1 := Prediction.mk (JVal "u1") (JVal "G1") (JVal 1) (JVal 0)
                          (JVal "Bob") (JVal 1) in
  let p2 := Prediction.mk (JVal "u2") (JVal "G1") (JVal 1) (JVal 0)
                          (JVal "Bob") (JVal 1) in
  let pZed := Prediction.mk (JVal "u1") (JVal "G1") (JVal 1) (JVal 0)
                            (JVal "Zed") (JVal 7) in
  let pAbe := Prediction.mk (JVal "u1") (JVal "G1") (JVal 1) (JVal 0)
                            (JVal "Abe") (JVal 7) in
  let pMia := Prediction.mk (JVal "u2") (JVal "G1") (JVal 1) (JVal 0)
                            (JVal "Mia") (JVal 7) in
  let ranking games predictions :=
    option_map (fun playerStats =>
                  sortPlayersByStats codeUnitCompare playerStats predictions)
               (calculatePlayerStats games predictions) in
  (Permutation [p1; p2] [p2; p1]
   /\ ranking [g] [p1; p2]
      = Some [("u1", PlayerStats.mk 10 1 1 1); ("u2", PlayerStats.mk 10 1 1 1)]
   /\ ranking [g] [p2; p1]
      = Some [("u2", PlayerStats.mk 10 1 1 1); ("u1", PlayerStats.mk 10 1 1 1)]
   /\ ranking [g] [p1; p2] <> ranking [g] [p2; p1])
  /\ (Permutation [pZed; pAbe; pMia] [pAbe; pZed; pMia]
      /\ ranking [] [pZed; pAbe; pMia]
         = Some [("u2", PlayerStats.mk 0 0 0 0); ("u1", PlayerStats.mk 0 0 0 0)]
      /\ ranking [] [pAbe; pZed; pMia]
         = Some [("u1", PlayerStats.mk 0 0 0 0); ("u2", PlayerStats.mk 0 0 0 0)]
      /\ ranking [] [pZed; pAbe; pMia] <> ranking [] [pAbe; pZed; pMia])
  /\ (Permutation [g; g'] [g'; g]
      /\ calculatePlayerStats [g; g'] [p1] = Some [("u1", PlayerStats.mk 1 1 0 1)]
      /\ calculatePlayerStats [g'; g] [p1] = Some [("u1", PlayerStats.mk 10 1 1 1)]
      /\ calculatePlayerStats [g; g'] [p1] <> calculatePlayerStats [g'; g] [p1]).
Proof.
  cbv zeta. split; [ | split].
  - split; [apply perm_swap | ]. split; [reflexivity | ]. split; [reflexivity | ].
    vm_compute. discriminate.
  - split; [apply perm_swap | ]. split; [reflexivity | ]. split; [reflexivity | ].
    vm_compute. discriminate.
  - split; [apply perm_swap | ]. split; [reflexivity | ]. split; [reflexivity | ].
    vm_compute. discriminate.
Qed.

(** ** Worked examples *)

(** The scenario of the specification: game G1 finished 2-1 in week W1; A
    predicts 2-1 and B predicts 3-1; G2 is upcoming. *)
Example scenario_week_one :
  let g1 := Game.mk (JVal "G1") JUndefined (JVal "finished")
                    JUndefined (JVal 2) JUndefined (JVal 1)
                    JUndefined (JVal "W1") in
  let g2 := Game.mk (JVal "G2") JUndefined (JVal "upcoming")
                    JUndefined JNull JUndefined JNull
                    JUndefined (JVal "W1") in
  let pA := Prediction.mk (JVal "A") (JVal "G1") (JVal 2) (JVal 1)
                          (JVal "Ana") (JVal 1) in
  let pB := Prediction.mk (JVal "B") (JVal "G1") (JVal 3) (JVal 1)
                          (JVal "Bea") (JVal 2) in
  let pC := Prediction.mk (JVal "C") (JVal "G2") (JVal 0) (JVal 0)
                          (JVal "Cai") (JVal 3) in
  let pD := Prediction.mk (JVal "D") (JVal "G1") JNull JNull
                          (JVal "Dee") (JVal 4) in
  calculatePoints pA (normalizedGame g1) = Some 10
  /\ calculatePoints pB (normalizedGame g1) = Some 7
  /\ calculatePoints pC (normalizedGame g2) = None
  /\ calculatePoints pD (normalizedGame g1) = Some 0
  /\ calculatePlayerStats [g1; g2] [pA; pB; pC; pD]
     = Some [("A", PlayerStats.mk 10 1 1 1); ("B", PlayerStats.mk 7 0 0 1);
             ("C", PlayerStats.mk 0 0 0 0); ("D", PlayerStats.mk 0 0 0 1)].
Proof. repeat split. Qed.

(** Two users tied at the week's maximum are both credited. *)
Example scenario_tied_week :
  let g1 := Game.mk (JVal "G1") (JVal "FINISHED") JUndefined
                    (JVal 0) JUndefined (JVal 0) JUndefined
                    (JVal "W1") JUndefined in
  let pA := Prediction.mk (JVal "A") (JVal "G1") (JVal 1) (JVal 1)
                          (JVal "Ana") (JVal 1) in
  let pB := Prediction.mk (JVal "B") (JVal "G1") (JVal 2) (JVal 2)
                          (JVal "Bea") (JVal 2) in
  let pC := Prediction.mk (JVal "C") (JVal "G1") (JVal 1) (JVal 0)
                          (JVal "Cai") (JVal 3) in
  calculatePlayerStats [g1] [pA; pB; pC]
  = Some [("A", PlayerStats.mk 6 1 0 1); ("B", PlayerStats.mk 6 1 0 1);
          ("C", PlayerStats.mk 2 0 0 1)].
Proof. reflexivity. Qed.


(** ** Instances *)

Lemma calculatePoints_four_components_witness :
  let g := Game.mk (JVal "G1") JUndefined (JVal "Finished")
                   JUndefined (JVal 2) JUndefined (JVal 1)
                   JUndefined (JVal "W1") in
  let p := Prediction.mk (JVal "B") (JVal "G1") (JVal 3) (JVal 1)
                         (JVal "Bea") (JVal 2) in
  gameStatusOf g = "finished"
  /\ homeScoreOf g = JVal 2
  /\ awayScoreOf g = JVal 1
  /\ calculatePoints p g = Some 7.
Proof.
  cbv zeta.
  split; [reflexivity | ]. split; [reflexivity | ]. split; [reflexivity | ].
  apply (calculatePoints_four_components _ _ 3 1 2 1); reflexivity.
Defined.

Lemma calculatePoints_range_and_perfect_witness :
  let g := Game.mk (JVal "G1") JUndefined (JVal "Finished")
                   JUndefined (JVal 2) JUndefined (JVal 1)
                   JUndefined (JVal "W1") in
  let p := Prediction.mk (JVal "A") (JVal "G1") (JVal 2) (JVal 1)
                         (JVal "Ana") (JVal 1) in
  exists n,
    calculatePoints p g = Some n
    /\ In n [0; 1; 2; 3; 4; 5; 6; 7; 8; 9; 10]
    /\ (n = 10 <-> 2 = 2 /\ 1 = 1).
Proof.
  cbv zeta.
  apply (calculatePoints_range_and_perfect _ _ 2 1 2 1); reflexivity.
Defined.


Lemma stats_and_ranking_order_independent_witness :
  let g := Game.mk (JVal "G1") (JVal "finished") JUndefined
                   (JVal 1) JUndefined (JVal 0) JUndefined
                   (JVal "W1") JUndefined in
  let p1 := Prediction.mk (JVal "u1") (JVal "G1") (JVal 1) (JVal 0)
                          (JVal "Ana") (JVal 1) in
  let p2 := Prediction.mk (JVal "u2") (JVal "G1") (JVal 1) (JVal 0)
                          (JVal "Bea") (JVal 1) in
  Permutation [p1; p2] [p2; p1]
  /\ NoDup (map gameKey [g])
  /\ exists playerStats playerStats',
       calculatePlayerStats [g] [p1; p2] = Some playerStats
       /\ calculatePlayerStats [g] [p2; p1] = Some playerStats'
       /\ (forall u, Obj.get playerStats u = Obj.get playerStats' u)
       /\ sortPlayersByStats codeUnitCompare playerStats [p1; p2]
          = sortPlayersByStats codeUnitCompare playerStats' [p2; p1].
Proof.
  intros g p1 p2.
  assert (ND : NoDup (map gameKey [g])).
  { constructor; [intros [] | constructor]. }
  split; [apply perm_swap | ]. split; [exact ND | ].
  destruct (stats_and_ranking_order_independent
              codeUnitCompare codeUnitCompare_antisym codeUnitCompare_trans
              [g] [g] [p1; p2] [p2; p1]
              (perm_swap p2 p1 []) (Permutation_refl [g]) ND)
    as [playerStats [playerStats' [E [E' [M R]]]]].
  exists playerStats, playerStats'.
  split; [exact E | ]. split; [exact E' | ]. split; [exact M | ].
  apply R.
  - intros p q Hp Hq.
    destruct Hp as [<- | [<- | []]], Hq as [<- | [<- | []]];
      simpl; intros U T; (reflexivity || discriminate).
  - vm_compute in E. injection E as <-.
    intros a b Ha Hb.
    destruct Ha as [<- | [<- | []]], Hb as [<- | [<- | []]];
      intros N C; try (apply N; reflexivity); vm_compute in C; discriminate.
Defined.

(** * Further properties of the module and of its callers *)

(** ** More on the points *)

Lemma pointsRule_swap (h a H A : Z) : pointsRule a h A H = pointsRule h a H A.
Proof.
  unfold pointsRule, outcomeOf, bonus.
  replace (Z.abs (a - h)) with (Z.abs (h - a)) by lia.
  replace (Z.abs (A - H)) with (Z.abs (H - A)) by lia.
  destruct (Z.ltb_spec h a), (Z.ltb_spec a h), (Z.ltb_spec H A), (Z.ltb_spec A H);
    try lia; simpl;
    destruct (a =? A), (h =? H), (Z.abs (h - a) =? Z.abs (H - A)); reflexivity.
Qed.

Lemma scoreLine_swap (ph pa ah aa : jsval Z) :
  scoreLine pa ph aa ah = scoreLine ph pa ah aa.
Proof.
  destruct ph as [ | | h], pa as [ | | a], ah as [ | | H], aa as [ | | A];
    unfold scoreLine, js_gt, js_lt, js_strict_eq, js_sub, Math_abs, num_strict_eq,
      toNumber;
    repeat match goal with
           | |- context [?x <? ?y] => destruct (Z.ltb_spec x y)
           | |- context [?x =? ?y] => destruct (Z.eqb_spec x y)
           end;
    cbn [outcome_eqb]; lia.
Qed.

(** X1. The points do not depend on which side is called home: exchanging
    home and away in both the prediction and the game leaves the result of
    [calculatePoints] unchanged, the sentinel included. *)
Theorem calculatePoints_home_away_symmetric (p : Prediction.t) (g : Game.t) :
  calculatePoints (swapPrediction p) (swapGame g) = calculatePoints p g.
Proof.
  rewrite !calculatePoints_unfold.
  change (gameStatusOf (swapGame g)) with (gameStatusOf g).
  change (homeScoreOf (swapGame g)) with (awayScoreOf g).
  change (awayScoreOf (swapGame g)) with (homeScoreOf g).
  cbn [swapPrediction Prediction.predictedHomeScore Prediction.predictedAwayScore].
  rewrite scoreLine_swap.
  destruct (negb (gameStatusOf g =? "finished")%string); simpl; [reflexivity | ].
  destruct (is_null (homeScoreOf g)), (is_null (awayScoreOf g)); simpl;
    try reflexivity.
  destruct (is_null (Prediction.predictedHomeScore p)),
    (is_null (Prediction.predictedAwayScore p)); reflexivity.
Qed.

Lemma pointsRule_values (h a H A : Z) :
  In (pointsRule h a H A) [0; 1; 2; 3; 5; 6; 7; 10]
  /\ (5 <= pointsRule h a H A <-> outcomeOf h a = outcomeOf H A).
Proof.
  unfold pointsRule, outcomeOf, bonus. simpl.
  destruct (Z.ltb_spec h a), (Z.ltb_spec a h), (Z.ltb_spec H A), (Z.ltb_spec A H);
    try lia; cbn [outcome_eqb];
    destruct (Z.eqb_spec h H), (Z.eqb_spec a A),
      (Z.eqb_spec (Z.abs (h - a)) (Z.abs (H - A)));
    try lia; (split; [simpl; tauto | split; [reflexivity || discriminate || lia | lia || discriminate || reflexivity]]).
Qed.

(** X2. With entered scores against a finished game with actual scores, the
    points are never 4, 8 or 9: they are one of 0, 1, 2, 3, 5, 6, 7, 10, and
    they reach 5 exactly when the predicted outcome is the actual one. *)
Theorem calculatePoints_attainable_values (p : Prediction.t) (g : Game.t)
  (h a H A : Z) :
  gameStatusOf g = "finished" ->
  homeScoreOf g = JVal H ->
  awayScoreOf g = JVal A ->
  Prediction.predictedHomeScore p = JVal h ->
  Prediction.predictedAwayScore p = JVal a ->
  exists n,
    calculatePoints p g = Some n
    /\ In n [0; 1; 2; 3; 5; 6; 7; 10]
    /\ (5 <= n <-> outcomeOf h a = outcomeOf H A).
Proof.
  intros Hs HH HA Hh Ha. exists (pointsRule h a H A). split.
  - rewrite calculatePoints_unfold, Hs, HH, HA, Hh, Ha. simpl.
    rewrite scoreLine_present. reflexivity.
  - apply pointsRule_values.
Qed.

(** ** Score classes *)

(** X3. The class [getScoreClass] gives to a result of [calculatePoints] is
    ['pending'] exactly for the sentinel, ['perfect'] exactly for 10, ['high']
    exactly for 7 to 9, ['medium'] for 4 to 6 and ['low'] for 0 to 3. *)
Theorem getScoreClass_of_points (p : Prediction.t) (g : Game.t) :
  let points := calculatePoints p g in
  let class := getScoreClass (pointsValue points) in
  (class = "pending" <-> points = None)
  /\ (class = "perfect" <-> points = Some 10)
  /\ (class = "high" <-> exists n, points = Some n /\ 7 <= n <= 9)
  /\ (class = "medium" <-> exists n, points = Some n /\ 4 <= n <= 6)
  /\ (class = "low" <-> exists n, points = Some n /\ 0 <= n <= 3).
Proof.
  cbv zeta. pose proof (calculatePoints_range p g) as R.
  destruct (calculatePoints p g) as [n | ]; simpl.
  - specialize (R n eq_refl).
    assert (E : forall m, Some n = Some m <-> n = m)
      by (intros m; split; congruence).
    destruct (Z.eqb_spec n 10); [ | destruct (Z.leb_spec 7 n);
      [ | destruct (Z.leb_spec 4 n); [ | destruct (Z.leb_spec 1 n)]]];
      repeat split; try discriminate; try congruence;
      try (intros _; exists n; split; [reflexivity | lia]);
      try (intros [m [Em Rm]]; apply E in Em; subst m; lia).
  - repeat split; try discriminate; try reflexivity;
      intros [m [Em _]]; discriminate.
Qed.

(** X4. The history modal and [getScoreClass] classify every result of
    [calculatePoints] alike, except 0 points: ['zero'] in the modal and
    ['low'] for [getScoreClass]. *)
Theorem history_class_differs_only_at_zero (p : Prediction.t) (g : Game.t) :
  let points := pointsValue (calculatePoints p g) in
  (calculatePoints p g <> Some 0 ->
   historyPointsClass points = getScoreClass points)
  /\ (calculatePoints p g = Some 0 ->
      historyPointsClass points = "zero" /\ getScoreClass points = "low").
Proof.
  cbv zeta. pose proof (calculatePoints_range p g) as R.
  destruct (calculatePoints p g) as [n | ]; simpl.
  - specialize (R n eq_refl). split.
    + intros N. assert (n <> 0) by congruence.
      destruct (n =? 10); [reflexivity | ].
      destruct (7 <=? n); [reflexivity | ].
      destruct (4 <=? n); [reflexivity | ].
      destruct (Z.ltb_spec 0 n), (Z.leb_spec 1 n); try reflexivity; lia.
    + intros E. inversion E. subst. split; reflexivity.
  - split; [reflexivity | discriminate].
Qed.

(** ** Looking up a player *)




(** ** Duplicates and further invariants of the statistics *)



Lemma flat_map_short {A B : Type} (f : A -> list B) (l : list A) :
  (forall x, (List.length (f x) <= 1)%nat) ->
  (List.length (flat_map f l) <= List.length l)%nat.
Proof.
  intros H. induction l as [ | x l IH]; simpl.
  - apply Nat.le_refl.
  - rewrite length_app. specialize (H x). lia.
Qed.

Lemma fechasWonOf_le_gamesOf (u : string) (cs : list Scored) :
  0 <= fechasWonOf u cs <= gamesOf u cs.
Proof.
  unfold fechasWonOf, gamesOf. split; [lia | ]. apply Nat2Z.inj_le.
  eapply Nat.le_trans;
    [ | apply (flat_map_short
                 (fun s : Scored => match s_week s with Some f => [f] | None => [] end))].
  - apply NoDup_incl_length; [apply NoDup_filter, NoDup_weeksOf | ].
    intros f Hf. apply filter_In in Hf. destruct Hf as [_ W].
    unfold winsWeek in W. apply andb_true_iff in W. destruct W as [W _].
    apply mem_In, In_weekUsers in W. destruct W as [s [Hs [Wk E]]].
    apply in_flat_map. exists s. split.
    + apply filter_In. split; [assumption | ]. unfold byUser. rewrite E.
      apply String.eqb_refl.
    + unfold inWeek in Wk. destruct (s_week s) as [f' | ]; [ | discriminate].
      apply String.eqb_eq in Wk. subst. left. reflexivity.
  - intros s. destruct (s_week s); simpl; lia.
Qed.

Lemma totalOf_perfect_bounds (u : string) (cs : list Scored) :
  (forall s, In s cs -> 0 <= s_points s <= 10) ->
  0 <= perfectOf u cs
  /\ 10 * perfectOf u cs <= totalOf u cs
  /\ totalOf u cs <= 9 * gamesOf u cs + perfectOf u cs.
Proof.
  induction cs as [ | c cs IH] using rev_ind; intros H.
  - unfold perfectOf, totalOf, gamesOf. simpl. lia.
  - rewrite totalOf_snoc, perfectOf_snoc, gamesOf_snoc.
    assert (Hc : 0 <= s_points c <= 10)
      by (apply H, in_app_iff; right; left; reflexivity).
    assert (IH' := IH (fun s Hs => H s (proj2 (in_app_iff _ _ _) (or_introl Hs)))).
    destruct (byUser u c); cbn [andb]; [ | lia].
    destruct (Z.eqb_spec (s_points c) 10); lia.
Qed.

(** X7. A user never has more weeks won than games participated: every
    entry of the returned mapping has
    [0 <= fechasWonCount <= gamesParticipated]. *)
Theorem fechasWonCount_le_gamesParticipated (games : list Game.t)
  (predictions : list Prediction.t) :
  exists playerStats,
    calculatePlayerStats games predictions = Some playerStats
    /\ forall u stats,
         Obj.get playerStats u = Some stats ->
         0 <= PlayerStats.fechasWonCount stats
              <= PlayerStats.gamesParticipated stats.
Proof.
  exists (statsTable (buildGameMap games) predictions).
  split; [apply calculatePlayerStats_table | ].
  intros u stats H. apply get_statsTable in H. destruct H as [_ ->].
  apply fechasWonOf_le_gamesOf.
Qed.

(** X8. Every perfect score contributes 10 and every other scored
    prediction at most 9: in every entry of the returned mapping,
    [10 * perfectScoresCount <= totalPoints
     <= 9 * gamesParticipated + perfectScoresCount]. *)
Theorem totalPoints_perfect_bounds (games : list Game.t)
  (predictions : list Prediction.t) :
  exists playerStats,
    calculatePlayerStats games predictions = Some playerStats
    /\ forall u stats,
         Obj.get playerStats u = Some stats ->
         0 <= PlayerStats.perfectScoresCount stats
         /\ 10 * PlayerStats.perfectScoresCount stats
            <= PlayerStats.totalPoints stats
         /\ PlayerStats.totalPoints stats
            <= 9 * PlayerStats.gamesParticipated stats
               + PlayerStats.perfectScoresCount stats.
Proof.
  exists (statsTable (buildGameMap games) predictions).
  split; [apply calculatePlayerStats_table | ].
  intros u stats H. apply get_statsTable in H. destruct H as [_ ->].
  apply totalOf_perfect_bounds. intros s. apply scoredList_points_range.
Qed.

(** ** The matrix of [aggregatePredictionsByPlayer] *)

Lemma keys_set {V : Type} (o : Obj.t V) (k : string) (v : V) :
  Obj.keys (Obj.set o k v) = snocNew (Obj.keys o) k.
Proof.
  unfold Obj.keys, snocNew, mem. induction o as [ | [j w] o IH].
  - reflexivity.
  - cbn [Obj.set map fst existsb]. rewrite (String.eqb_sym k j).
    destruct (String.eqb_spec j k) as [-> | N]; cbn [orb map fst];
      [reflexivity | ].
    rewrite IH.
    destruct (existsb (String.eqb k) (map fst o)); reflexivity.
Qed.

(** One iteration either skips a dangling prediction or stores a row. *)
Lemma aggregateStep_cases (gameMap : Obj.t Game.t)
  (matrix : Obj.t (Obj.t Cell.t)) (players : list string) (p : Prediction.t) :
  (hasGame gameMap p = false
   /\ aggregateStep gameMap (matrix, players) p = (matrix, players))
  \/ (exists row,
        hasGame gameMap p = true
        /\ aggregateStep gameMap (matrix, players) p
           = (Obj.set matrix (userKey p) row, snocNew players (userKey p))).
Proof.
  unfold hasGame, aggregateStep.
  destruct (Obj.get gameMap (propertyKey (Prediction.gameId p)));
    [right; eexists | left]; split; reflexivity.
Qed.

Lemma aggregate_players (gameMap : Obj.t Game.t) (l : list Prediction.t)
  (matrix : Obj.t (Obj.t Cell.t)) (players : list string) :
  snd (fold_left (aggregateStep gameMap) l (matrix, players))
  = fold_left snocNew (map userKey (filter (hasGame gameMap) l)) players.
Proof.
  revert matrix players. induction l as [ | p l IH]; intros matrix players.
  - reflexivity.
  - cbn [fold_left filter].
    destruct (aggregateStep_cases gameMap matrix players p)
      as [[-> ->] | [row [-> ->]]]; rewrite IH; reflexivity.
Qed.

Lemma aggregate_keys (gameMap : Obj.t Game.t) (l : list Prediction.t)
  (matrix : Obj.t (Obj.t Cell.t)) (players : list string) :
  Obj.keys (fst (fold_left (aggregateStep gameMap) l (matrix, players)))
  = fold_left snocNew (map userKey (filter (hasGame gameMap) l))
              (Obj.keys matrix).
Proof.
  revert matrix players. induction l as [ | p l IH]; intros matrix players.
  - reflexivity.
  - cbn [fold_left filter].
    destruct (aggregateStep_cases gameMap matrix players p)
      as [[-> ->] | [row [-> ->]]]; rewrite IH; [reflexivity | ].
    cbn [fst map]. rewrite keys_set. reflexivity.
Qed.

Lemma aggregate_fields (games : list Game.t) (predictions : list Prediction.t) :
  Aggregate.players (aggregatePredictionsByPlayer games predictions)
  = stableSort codeUnitCompare
      (dedup (map userKey (filter (hasGame (buildGameMap games)) predictions)))
  /\ Obj.keys (Aggregate.matrix (aggregatePredictionsByPlayer games predictions))
     = dedup (map userKey (filter (hasGame (buildGameMap games)) predictions))
  /\ Aggregate.matrix (aggregatePredictionsByPlayer games predictions)
     = fst (fold_left (aggregateStep (buildGameMap games)) predictions ([], [])).
Proof.
  unfold aggregatePredictionsByPlayer. cbv zeta.
  pose proof (aggregate_players (buildGameMap games) predictions [] []) as P.
  pose proof (aggregate_keys (buildGameMap games) predictions [] []) as Q.
  destruct (fold_left (aggregateStep (buildGameMap games)) predictions ([], []))
    as [matrix players] eqn:E.
  pose proof (eq_trans (eq_sym (f_equal snd E)) P) as P'.
  pose proof (eq_trans (eq_sym (f_equal (fun x => Obj.keys (fst x)) E)) Q) as Q'.
  cbn [fst snd Aggregate.players Aggregate.matrix] in *.
  rewrite P', Q'. unfold dedup. repeat split.
Qed.







Lemma cellOf_step (gameMap : Obj.t Game.t) (matrix : Obj.t (Obj.t Cell.t))
  (players : list string) (q : Prediction.t) (u k : string) :
  cellOf (fst (aggregateStep gameMap (matrix, players) q)) u k
  = match Obj.get gameMap (propertyKey (Prediction.gameId q)) with
    | Some game =>
        if ((userKey q =? u)%string
            && (propertyKey (Prediction.gameId q) =? k)%string)%bool
        then Some (Cell.mk (calculatePoints q (lowercaseView game)) q)
        else cellOf matrix u k
    | None => cellOf matrix u k
    end.
Proof.
  unfold aggregateStep.
  destruct (Obj.get gameMap (propertyKey (Prediction.gameId q))) as [game | ];
    [ | reflexivity].
  cbn [fst]. unfold cellOf. rewrite get_set.
  destruct (String.eqb_spec (userKey q) u) as [-> | N]; cbn [andb];
    [ | reflexivity].
  rewrite get_set.
  destruct (propertyKey (Prediction.gameId q) =? k)%string; [reflexivity | ].
  destruct (Obj.get matrix u); reflexivity.
Qed.

Lemma cellOf_preserved (gameMap : Obj.t Game.t) (u k : string)
  (l : list Prediction.t) (st : Obj.t (Obj.t Cell.t) * list string) :
  (forall q, In q l ->
             ~ (userKey q = u /\ propertyKey (Prediction.gameId q) = k)) ->
  cellOf (fst (fold_left (aggregateStep gameMap) l st)) u k = cellOf (fst st) u k.
Proof.
  revert st. induction l as [ | q l IH]; intros [matrix players] H.
  - reflexivity.
  - cbn [fold_left]. rewrite IH by (intros x Hx; apply H; right; assumption).
    rewrite cellOf_step.
    assert (N : ((userKey q =? u)%string
                 && (propertyKey (Prediction.gameId q) =? k)%string)%bool = false).
    { destruct (String.eqb_spec (userKey q) u) as [E1 | ]; [ | reflexivity].
      destruct (String.eqb_spec (propertyKey (Prediction.gameId q)) k) as [E2 | ];
        [ | reflexivity].
      exfalso. apply (H q (or_introl eq_refl)). tauto. }
    rewrite N. destruct (Obj.get gameMap (propertyKey (Prediction.gameId q)));
      reflexivity.
Qed.

(** Every cell of the matrix comes from a prediction of the array. *)
Lemma cells_origin (gameMap : Obj.t Game.t) (l : list Prediction.t)
  (u k : string) (cell : Cell.t) :
  cellOf (fst (fold_left (aggregateStep gameMap) l ([], []))) u k = Some cell ->
  In (Cell.prediction cell) l
  /\ userKey (Cell.prediction cell) = u
  /\ propertyKey (Prediction.gameId (Cell.prediction cell)) = k
  /\ exists game,
       Obj.get gameMap (propertyKey (Prediction.gameId (Cell.prediction cell)))
       = Some game
       /\ Cell.points cell
          = calculatePoints (Cell.prediction cell) (lowercaseView game).
Proof.
  induction l as [ | q l IH] using rev_ind.
  - discriminate.
  - rewrite fold_left_app. cbn [fold_left].
    destruct (fold_left (aggregateStep gameMap) l ([], [])) as [matrix players].
    rewrite cellOf_step. cbn [fst] in IH.
    assert (Old : cellOf matrix u k = Some cell ->
                  In (Cell.prediction cell) (l ++ [q])
                  /\ userKey (Cell.prediction cell) = u
                  /\ propertyKey (Prediction.gameId (Cell.prediction cell)) = k
                  /\ exists game,
                       Obj.get gameMap
                         (propertyKey (Prediction.gameId (Cell.prediction cell)))
                       = Some game
                       /\ Cell.points cell
                          = calculatePoints (Cell.prediction cell)
                                            (lowercaseView game)).
    { intros H. destruct (IH H) as [Hin Rest].
      split; [apply in_app_iff; left; assumption | exact Rest]. }
    destruct (Obj.get gameMap (propertyKey (Prediction.gameId q)))
      as [game | ] eqn:G; [ | exact Old].
    destruct (String.eqb_spec (userKey q) u) as [E1 | ]; [ | exact Old].
    destruct (String.eqb_spec (propertyKey (Prediction.gameId q)) k) as [E2 | ];
      [ | exact Old].
    cbn [andb]. intros H. inversion H. subst cell. cbn [Cell.prediction Cell.points].
    split; [apply in_app_iff; right; left; reflexivity | ].
    split; [assumption | ]. split; [assumption | ].
    exists game. split; [assumption | reflexivity].
Qed.

(** X11. In the matrix the last write wins: the cell of a player and a game
    holds the last prediction of the array with that user key and that
    gameId, with the points [calculatePoints] gives it on the game's
    lowercase fields; earlier predictions of the pair are overwritten. *)
Theorem aggregate_matrix_last_prediction_wins (games : list Game.t)
  (l1 l2 : list Prediction.t) (p : Prediction.t) (game : Game.t) :
  gameOf games p = Some game ->
  (forall q, In q l2 ->
             ~ (userKey q = userKey p
                /\ propertyKey (Prediction.gameId q)
                   = propertyKey (Prediction.gameId p))) ->
  cellOf (Aggregate.matrix (aggregatePredictionsByPlayer games (l1 ++ p :: l2)))
         (userKey p) (propertyKey (Prediction.gameId p))
  = Some (Cell.mk (calculatePoints p (lowercaseView game)) p).
Proof.
  intros G H.
  destruct (aggregate_fields games (l1 ++ p :: l2)) as [_ [_ ->]].
  rewrite fold_left_app. cbn [fold_left].
  rewrite cellOf_preserved by assumption.
  destruct (fold_left (aggregateStep (buildGameMap games)) l1 ([], []))
    as [matrix players].
  rewrite cellOf_step. unfold gameOf in G. rewrite G, !String.eqb_refl.
  reflexivity.
Qed.

(** ** Lowercase and capitalised fields in the matrix *)

Lemma lowerAscii_idempotent (c : ascii) : lowerAscii (lowerAscii c) = lowerAscii c.
Proof. destruct c as [[] [] [] [] [] [] [] []]; reflexivity. Qed.

Lemma toLowerCase_idempotent (s : string) :
  toLowerCase (toLowerCase s) = toLowerCase s.
Proof.
  induction s as [ | c s IH]; simpl; [reflexivity | ].
  rewrite lowerAscii_idempotent, IH. reflexivity.
Qed.

Lemma toLowerCase_empty (s : string) : toLowerCase s = "" <-> s = "".
Proof. destruct s; simpl; split; congruence. Qed.

(** The status a game is scored with, when read through [a || b || '']
    after the first operand was already lowercased. *)
Lemma js_or_lowered (s : string) (other : jsval string) :
  truthy other = false ->
  toLowerCase (js_or_str (js_or (JVal (toLowerCase s)) other) "")
  = toLowerCase s.
Proof.
  intros F. unfold js_or, truthy at 1.
  destruct (String.eqb_spec (toLowerCase s) "") as [E | N]; cbn [negb].
  - unfold js_or_str. rewrite E.
    destruct other as [ | | o]; try reflexivity.
    unfold truthy in F. destruct (o =? "")%string; [reflexivity | discriminate].
  - unfold js_or_str. apply String.eqb_neq in N. rewrite N.
    apply toLowerCase_idempotent.
Qed.

Lemma lowercaseView_scored_alike (g : Game.t) (p : Prediction.t) :
  Game.Status g = JUndefined ->
  Game.HomeScore g = JUndefined ->
  Game.AwayScore g = JUndefined ->
  calculatePoints p (lowercaseView g) = calculatePoints p (normalizedGame g).
Proof.
  intros ES EH EA. apply calculatePoints_ext.
  - unfold gameStatusOf, lowercaseView, normalizedGame.
    cbn [Game.status Game.Status]. rewrite ES.
    change (js_or JUndefined (Game.status g)) with (Game.status g).
    rewrite js_or_undefined_r.
    rewrite (js_or_lowered (js_or_str (Game.status g) "") JUndefined eq_refl).
    reflexivity.
  - unfold homeScoreOf, lowercaseView, normalizedGame.
    cbn [Game.homeScore Game.HomeScore]. rewrite EH.
    destruct (Game.homeScore g); reflexivity.
  - unfold awayScoreOf, lowercaseView, normalizedGame.
    cbn [Game.awayScore Game.AwayScore]. rewrite EA.
    destruct (Game.awayScore g); reflexivity.
Qed.

(** X12. When the games carry their status and scores in the lowercase
    fields only, every cell of the matrix shows the points that
    [calculatePlayerStats] counts for the cell's prediction (and the
    sentinel exactly when the prediction is not counted). *)
Theorem aggregate_matrix_points_agree (games : list Game.t)
  (predictions : list Prediction.t) (u k : string) (cell : Cell.t) :
  (forall g, In g games ->
             Game.Status g = JUndefined /\ Game.HomeScore g = JUndefined
             /\ Game.AwayScore g = JUndefined) ->
  cellOf (Aggregate.matrix (aggregatePredictionsByPlayer games predictions)) u k
  = Some cell ->
  In (Cell.prediction cell) predictions
  /\ Cell.points cell
     = option_map s_points
         (scoreWith (buildGameMap games) (Cell.prediction cell)).
Proof.
  intros Low H.
  destruct (aggregate_fields games predictions) as [_ [_ E]]. rewrite E in H.
  apply cells_origin in H. destruct H as [Hin [_ [_ [game [G ->]]]]].
  split; [assumption | ].
  unfold scoreWith. rewrite G.
  destruct (buildGameMap_In _ _ _ G) as [Hg _].
  destruct (Low game Hg) as [ES [EH EA]].
  rewrite (lowercaseView_scored_alike game _ ES EH EA).
  destruct (calculatePoints (Cell.prediction cell) (normalizedGame game));
    reflexivity.
Qed.

(** X13. The matrix reads the lowercase fields only: when the games carry
    no (or an empty) lowercase [status], every cell holds the sentinel,
    whatever the capitalised [Status] and scores say. *)
Theorem aggregate_matrix_ignores_capitalised (games : list Game.t)
  (predictions : list Prediction.t) (u k : string) (cell : Cell.t) :
  (forall g, In g games -> truthy (Game.status g) = false) ->
  cellOf (Aggregate.matrix (aggregatePredictionsByPlayer games predictions)) u k
  = Some cell ->
  Cell.points cell = None.
Proof.
  intros Cap H.
  destruct (aggregate_fields games predictions) as [_ [_ E]]. rewrite E in H.
  apply cells_origin in H. destruct H as [_ [_ [_ [game [G ->]]]]].
  destruct (buildGameMap_In _ _ _ G) as [Hg _].
  apply calculatePoints_null_iff. left.
  unfold gameStatusOf, lowercaseView. cbn [Game.status Game.Status].
  rewrite js_or_undefined_r. specialize (Cap game Hg).
  destruct (Game.status game) as [ | | s]; try (simpl; discriminate).
  unfold truthy in Cap. unfold js_or_str.
  destruct (s =? "")%string; [simpl; discriminate | discriminate].
Qed.

(** ** Games normalised at the boundary *)

(** A game whose lowercase status is the lowercased capitalised one, and
    whose lowercase scores are the capitalised ones, is scored alike by
    [calculatePoints] read directly, through the normalisation of
    [calculatePlayerStats], and through the lowercase fields of the matrix. *)
Lemma consistent_game_views (g : Game.t) (st : string) (p : Prediction.t) :
  Game.status g = JVal st ->
  toLowerCase st = st ->
  (forall s, Game.Status g = JVal s -> s <> "" -> toLowerCase s = st) ->
  Game.homeScore g = Game.HomeScore g ->
  Game.awayScore g = Game.AwayScore g ->
  calculatePoints p (normalizedGame g) = calculatePoints p g
  /\ calculatePoints p (lowercaseView g) = calculatePoints p g.
Proof.
  intros Est Low Cap EH EA.
  assert (Sfalsy : st = "" -> truthy (Game.Status g) = false).
  { intros ->. destruct (Game.Status g) as [ | | s] eqn:ES; try reflexivity.
    unfold truthy. destruct (String.eqb_spec s "") as [ | N]; [reflexivity | ].
    exfalso. apply N. apply toLowerCase_empty. apply (Cap s eq_refl N). }
  assert (Direct : gameStatusOf g = st).
  { unfold gameStatusOf. rewrite Est, <- Low.
    destruct (String.eqb_spec st "") as [E | N].
    - specialize (Sfalsy E). subst st. apply js_or_lowered. assumption.
    - unfold js_or, truthy at 1. rewrite Low.
      apply String.eqb_neq in N. rewrite N. cbn [negb]. unfold js_or_str.
      rewrite N. assumption. }
  assert (Norm : gameStatusOf (normalizedGame g) = st).
  { unfold gameStatusOf, normalizedGame. cbn [Game.status Game.Status].
    rewrite js_or_lowered by reflexivity. rewrite Est.
    destruct (Game.Status g) as [ | | s] eqn:ES;
      try (change (toLowerCase (js_or_str (JVal st) "") = st);
           unfold js_or_str; destruct (st =? "")%string eqn:E;
           [apply String.eqb_eq in E; rewrite E; reflexivity | assumption]).
    unfold js_or, truthy at 1.
    destruct (String.eqb_spec s "") as [-> | N]; cbn [negb].
    - unfold js_or_str. destruct (st =? "")%string eqn:E;
        [apply String.eqb_eq in E; rewrite E; reflexivity | assumption].
    - unfold js_or_str. apply String.eqb_neq in N. rewrite N.
      apply String.eqb_neq in N. apply (Cap s eq_refl N). }
  assert (View : gameStatusOf (lowercaseView g) = st).
  { unfold gameStatusOf, lowercaseView. cbn [Game.status Game.Status].
    rewrite js_or_undefined_r, Est. unfold js_or_str.
    destruct (st =? "")%string eqn:E;
      [apply String.eqb_eq in E; rewrite E; reflexivity | assumption]. }
  split; apply calculatePoints_ext; try congruence.
  - unfold homeScoreOf, normalizedGame. cbn [Game.homeScore Game.HomeScore].
    rewrite EH. destruct (Game.HomeScore g); reflexivity.
  - unfold awayScoreOf, normalizedGame. cbn [Game.awayScore Game.AwayScore].
    rewrite EA. destruct (Game.AwayScore g); reflexivity.
  - unfold homeScoreOf, lowercaseView. cbn [Game.homeScore Game.HomeScore].
    rewrite EH. destruct (Game.HomeScore g); reflexivity.
  - unfold awayScoreOf, lowercaseView. cbn [Game.awayScore Game.AwayScore].
    rewrite EA. destruct (Game.AwayScore g); reflexivity.
Qed.

Lemma js_or_nonempty (st : string) (other : jsval string) :
  st <> "" -> js_or_str (js_or (JVal st) other) "" = st.
Proof.
  intros N. apply String.eqb_neq in N. unfold js_or, truthy. rewrite N.
  cbn [negb]. unfold js_or_str. rewrite N. reflexivity.
Qed.

Lemma normalized_status (S : jsval string) :
  let st := js_or_str (lowerOpt S) "upcoming" in
  st <> ""
  /\ toLowerCase st = st
  /\ (forall s, S = JVal s -> s <> "" -> toLowerCase s = st)
  /\ (st = "finished" <-> exists s, S = JVal s /\ toLowerCase s = "finished").
Proof.
  cbv zeta. destruct S as [ | | s]; cbn [lowerOpt js_or_str].
  - repeat split; try discriminate. intros [s [E _]]. discriminate.
  - repeat split; try discriminate. intros [s [E _]]. discriminate.
  - destruct (String.eqb_spec (toLowerCase s) "") as [E | N].
    + apply (proj1 (toLowerCase_empty s)) in E. subst s.
      repeat split; try discriminate.
      * intros s E N. inversion E. subst. contradiction.
      * intros [s [E F]]. inversion E. subst. discriminate.
    + split; [assumption | ]. split; [apply toLowerCase_idempotent | ].
      split; [intros s' E _; inversion E; reflexivity | ].
      split; [intros F; exists s; tauto | ].
      intros [s' [E F]]. inversion E. subst. assumption.
Qed.

Section NormalizedDocuments.

Variable K : Type.
Variable kickOffISO : K -> option string.

Lemma normalizeGame_fields (fg n : GameDoc K) :
  normalizeGame K kickOffISO fg = Some n ->
  d_status n = JVal (js_or_str (lowerOpt (d_Status fg)) "upcoming")
  /\ d_Status n = d_Status fg
  /\ d_homeScore n = d_HomeScore fg /\ d_HomeScore n = d_HomeScore fg
  /\ d_awayScore n = d_AwayScore fg /\ d_AwayScore n = d_AwayScore fg
  /\ d_fecha n = d_Fecha fg /\ d_Fecha n = d_Fecha fg.
Proof.
  unfold normalizeGame.
  destruct (kickOffISO (d_KickOffTime fg)); [ | discriminate].
  intros E. inversion E. subst n. cbn.
  destruct (d_HomeScore fg), (d_AwayScore fg); repeat split.
Qed.

(** X14. A game produced by [normalizeGame] gets the same points from
    [calculatePoints] whether it is read directly, through the
    normalisation inside [calculatePlayerStats], or through the lowercase
    fields of the matrix; and its week label is the document's [Fecha]. *)
Theorem normalizeGame_scored_alike_everywhere (fg n : GameDoc K)
  (p : Prediction.t) :
  normalizeGame K kickOffISO fg = Some n ->
  calculatePoints p (normalizedGame (gameOfDoc n)) = calculatePoints p (gameOfDoc n)
  /\ calculatePoints p (lowercaseView (gameOfDoc n))
     = calculatePoints p (gameOfDoc n)
  /\ weekLabel (gameOfDoc n) = truthy_str (d_Fecha fg).
Proof.
  intros E. apply normalizeGame_fields in E.
  destruct E as [Es [ES [Eh [EH [Ea [EA [Ef EF]]]]]]].
  destruct (normalized_status (d_Status fg)) as [_ [Low [Cap _]]].
  destruct (consistent_game_views (gameOfDoc n) _ p Es Low) as [A B].
  - intros s. cbn [gameOfDoc Game.Status]. rewrite ES. apply Cap.
  - cbn [gameOfDoc Game.homeScore Game.HomeScore]. congruence.
  - cbn [gameOfDoc Game.awayScore Game.AwayScore]. congruence.
  - split; [exact A | split; [exact B | ]].
    unfold weekLabel. cbn [gameOfDoc Game.fecha Game.Fecha]. rewrite Ef, EF.
    unfold js_or. destruct (truthy (d_Fecha fg)); reflexivity.
Qed.

(** X15. A normalised game is scored only if the document's [Status] is a
    string that lowercases to ['finished'] and neither stored score is
    [null]: a document without [Status] becomes ['upcoming'] and always
    gets the sentinel. *)
Theorem normalizeGame_scoreable_iff (fg n : GameDoc K) (p : Prediction.t) :
  normalizeGame K kickOffISO fg = Some n ->
  (calculatePoints p (gameOfDoc n) <> None
   <-> (exists s, d_Status fg = JVal s /\ toLowerCase s = "finished")
       /\ d_HomeScore fg <> JNull /\ d_AwayScore fg <> JNull).
Proof.
  intros E. apply normalizeGame_fields in E.
  destruct E as [Es [ES [Eh [EH [Ea [EA _]]]]]].
  destruct (normalized_status (d_Status fg)) as [Ne [Low [Cap Fin]]].
  assert (St : gameStatusOf (gameOfDoc n)
               = js_or_str (lowerOpt (d_Status fg)) "upcoming").
  { unfold gameStatusOf. cbn [gameOfDoc Game.status Game.Status].
    rewrite Es, (js_or_nonempty _ _ Ne). exact Low. }
  assert (Hs : homeScoreOf (gameOfDoc n) = d_HomeScore fg).
  { unfold homeScoreOf. cbn [gameOfDoc Game.homeScore Game.HomeScore].
    rewrite Eh, EH. destruct (d_HomeScore fg); reflexivity. }
  assert (As : awayScoreOf (gameOfDoc n) = d_AwayScore fg).
  { unfold awayScoreOf. cbn [gameOfDoc Game.awayScore Game.AwayScore].
    rewrite Ea, EA. destruct (d_AwayScore fg); reflexivity. }
  pose proof (calculatePoints_null_iff p (gameOfDoc n)) as N.
  rewrite St, Hs, As in N. rewrite <- Fin.
  destruct (string_dec (js_or_str (lowerOpt (d_Status fg)) "upcoming") "finished")
    as [F | F];
    destruct (d_HomeScore fg), (d_AwayScore fg);
    split; intros H; try tauto;
    try (repeat split; (assumption || discriminate));
    try (exfalso; apply H, N; tauto);
    try (intros C; apply N in C; destruct C as [C | [C | C]];
         (contradiction || discriminate));
    try (destruct H as [_ [A B]]; congruence).
Qed.

(** X16. [normalizeGame] is idempotent: normalising a normalised game
    succeeds and changes nothing. *)
Theorem normalizeGame_idempotent (fg n : GameDoc K) :
  normalizeGame K kickOffISO fg = Some n ->
  normalizeGame K kickOffISO n = Some n.
Proof.
  unfold normalizeGame at 1.
  destruct (kickOffISO (d_KickOffTime fg)) as [iso | ] eqn:E; [ | discriminate].
  intros H. inversion H. unfold normalizeGame. cbn. rewrite E.
  destruct (d_HomeScore fg), (d_AwayScore fg); reflexivity.
Qed.

End NormalizedDocuments.

(** ** The games of the history dialog *)




(** ** Selecting the predictions of one game week *)











(** ** The ranking under an arbitrary collation *)





(** ** The grid of the matrix *)








(** ** Instances of the further properties *)

Lemma calculatePoints_attainable_values_witness :
  let g := Game.mk (JVal "G1") JUndefined (JVal "Finished")
                   JUndefined (JVal 2) JUndefined (JVal 1)
                   JUndefined (JVal "W1") in
  let p := Prediction.mk (JVal "B") (JVal "G1") (JVal 3) (JVal 1)
                         (JVal "Bea") (JVal 2) in
  gameStatusOf g = "finished"
  /\ homeScoreOf g = JVal 2
  /\ awayScoreOf g = JVal 1
  /\ Prediction.predictedHomeScore p = JVal 3
  /\ Prediction.predictedAwayScore p = JVal 1
  /\ exists n,
       calculatePoints p g = Some n
       /\ In n [0; 1; 2; 3; 5; 6; 7; 10]
       /\ (5 <= n <-> outcomeOf 3 1 = outcomeOf 2 1).
Proof.
  cbv zeta.
  split; [reflexivity | ]. split; [reflexivity | ]. split; [reflexivity | ].
  split; [reflexivity | ]. split; [reflexivity | ].
  apply (calculatePoints_attainable_values _ _ 3 1 2 1); reflexivity.
Defined.


Lemma aggregate_matrix_last_prediction_wins_witness :
  let g := Game.mk (JVal "G1") (JVal "finished") JUndefined
                   (JVal 2) JUndefined (JVal 1) JUndefined
                   (JVal "W1") JUndefined in
  let first := Prediction.mk (JVal "A") (JVal "G1") (JVal 3) (JVal 1)
                             (JVal "Ana") (JVal 1) in
  let again := Prediction.mk (JVal "A") (JVal "G1") (JVal 2) (JVal 1)
                             (JVal "Ana") (JVal 2) in
  let other := Prediction.mk (JVal "B") (JVal "G1") (JVal 0) (JVal 0)
                             (JVal "Bea") (JVal 3) in
  gameOf [g] again = Some g
  /\ (forall q, In q [other] ->
                ~ (userKey q = userKey again
                   /\ propertyKey (Prediction.gameId q)
                      = propertyKey (Prediction.gameId again)))
  /\ cellOf (Aggregate.matrix
               (aggregatePredictionsByPlayer [g] ([first] ++ again :: [other])))
            "A" "G1"
     = Some (Cell.mk (Some 10) again).
Proof.
  intros g first again other.
  assert (H : forall q, In q [other] ->
                        ~ (userKey q = userKey again
                           /\ propertyKey (Prediction.gameId q)
                              = propertyKey (Prediction.gameId again))).
  { intros q [<- | []] [E _]. discriminate E. }
  split; [reflexivity | ]. split; [exact H | ].
  exact (aggregate_matrix_last_prediction_wins [g] [first] [other] again g
           eq_refl H).
Defined.

Lemma aggregate_matrix_points_agree_witness :
  let g := Game.mk (JVal "G1") (JVal "finished") JUndefined
                   (JVal 2) JUndefined (JVal 1) JUndefined
                   (JVal "W1") JUndefined in
  let p := Prediction.mk (JVal "A") (JVal "G1") (JVal 3) (JVal 1)
                         (JVal "Ana") (JVal 1) in
  let cell := Cell.mk (Some 7) p in
  (forall g', In g' [g] ->
              Game.Status g' = JUndefined /\ Game.HomeScore g' = JUndefined
              /\ Game.AwayScore g' = JUndefined)
  /\ cellOf (Aggregate.matrix (aggregatePredictionsByPlayer [g] [p])) "A" "G1"
     = Some cell
  /\ In (Cell.prediction cell) [p]
  /\ Cell.points cell
     = option_map s_points (scoreWith (buildGameMap [g]) (Cell.prediction cell)).
Proof.
  intros g p cell.
  assert (H : forall g', In g' [g] ->
                         Game.Status g' = JUndefined
                         /\ Game.HomeScore g' = JUndefined
                         /\ Game.AwayScore g' = JUndefined).
  { intros g' [<- | []]. split; [reflexivity | split; reflexivity]. }
  split; [exact H | ]. split; [reflexivity | ].
  exact (aggregate_matrix_points_agree [g] [p] "A" "G1" cell H eq_refl).
Defined.

Lemma aggregate_matrix_ignores_capitalised_witness :
  let g := Game.mk (JVal "G1") JUndefined (JVal "finished")
                   JUndefined (JVal 2) JUndefined (JVal 1)
                   JUndefined (JVal "W1") in
  let p := Prediction.mk (JVal "A") (JVal "G1") (JVal 2) (JVal 1)
                         (JVal "Ana") (JVal 1) in
  let cell := Cell.mk None p in
  (forall g', In g' [g] -> truthy (Game.status g') = false)
  /\ cellOf (Aggregate.matrix (aggregatePredictionsByPlayer [g] [p])) "A" "G1"
     = Some cell
  /\ Cell.points cell = None.
Proof.
  intros g p cell.
  assert (H : forall g', In g' [g] -> truthy (Game.status g') = false).
  { intros g' [<- | []]. reflexivity. }
  split; [exact H | ]. split; [reflexivity | ].
  exact (aggregate_matrix_ignores_capitalised [g] [p] "A" "G1" cell H eq_refl).
Defined.

Lemma normalizeGame_scored_alike_everywhere_witness :
  let iso := fun stored : string => Some stored in
  let fg := mkGameDoc (JVal "G1") JUndefined JUndefined JUndefined JUndefined
                      JUndefined JUndefined JUndefined JUndefined
                      (JVal "Boca") (JVal "River") (JVal 2) (JVal 1)
                      (JVal "Finished") "2025-03-01T20:00:00.000Z"
                      (JVal "W1") (JVal "Liga") in
  let p := Prediction.mk (JVal "A") (JVal "G1") (JVal 3) (JVal 1)
                         (JVal "Ana") (JVal 1) in
  exists n,
    normalizeGame string iso fg = Some n
    /\ calculatePoints p (normalizedGame (gameOfDoc n))
       = calculatePoints p (gameOfDoc n)
    /\ calculatePoints p (lowercaseView (gameOfDoc n))
       = calculatePoints p (gameOfDoc n)
    /\ weekLabel (gameOfDoc n) = truthy_str (d_Fecha fg).
Proof.
  cbv zeta. eexists. split; [reflexivity | ].
  apply (normalizeGame_scored_alike_everywhere string (fun stored => Some stored)).
  reflexivity.
Defined.

Lemma normalizeGame_scoreable_iff_witness :
  let iso := fun stored : string => Some stored in
  let fg := mkGameDoc (JVal "G1") JUndefined JUndefined JUndefined JUndefined
                      JUndefined JUndefined JUndefined JUndefined
                      (JVal "Boca") (JVal "River") (JVal 2) (JVal 1)
                      JUndefined "2025-03-01T20:00:00.000Z"
                      (JVal "W1") (JVal "Liga") in
  let p := Prediction.mk (JVal "A") (JVal "G1") (JVal 3) (JVal 1)
                         (JVal "Ana") (JVal 1) in
  exists n,
    normalizeGame string iso fg = Some n
    /\ (calculatePoints p (gameOfDoc n) <> None
        <-> (exists s, d_Status fg = JVal s /\ toLowerCase s = "finished")
            /\ d_HomeScore fg <> JNull /\ d_AwayScore fg <> JNull).
Proof.
  cbv zeta. eexists. split; [reflexivity | ].
  apply (normalizeGame_scoreable_iff string (fun stored => Some stored)).
  reflexivity.
Defined.

Lemma normalizeGame_idempotent_witness :
  let iso := fun stored : string => Some stored in
  let fg := mkGameDoc (JVal "G1") JUndefined JUndefined JUndefined JUndefined
                      JUndefined JUndefined JUndefined JUndefined
                      (JVal "Boca") (JVal "River") JNull JNull
                      (JVal "UPCOMING") "2025-03-01T20:00:00.000Z"
                      (JVal "W1") (JVal "Liga") in
  exists n,
    normalizeGame string iso fg = Some n
    /\ normalizeGame string iso n = Some n.
Proof.
  cbv zeta. eexists. split; [reflexivity | ].
  apply (normalizeGame_idempotent string (fun stored => Some stored)
           (mkGameDoc (JVal "G1") JUndefined JUndefined JUndefined JUndefined
                      JUndefined JUndefined JUndefined JUndefined
                      (JVal "Boca") (JVal "River") JNull JNull
                      (JVal "UPCOMING") "2025-03-01T20:00:00.000Z"
                      (JVal "W1") (JVal "Liga"))).
  reflexivity.
Defined.

